(** * netlify/edge-functions/proxy.ts: a generic reverse proxy

    A shallow embedding of the edge function and of the part of its
    JavaScript platform it calls (strings, [Headers], [Response], [URL],
    [JSON.parse], [Object.entries], [fetch]), followed by the properties
    of the request/response pipeline.

    The repository's second, older function, proxy.js, is embedded as
    [handler_js], with properties of its own at the end.

    Conventions of the embedding.
    - A JavaScript string is a [string] of bytes (code units below 256);
      header names and values are ByteStrings on the platform anyway.
    - A statement that may throw is a [Completion]; the handler's single
      [await fetch(...)] is the constructor [Await_fetch] of [Action].
    - [log(...)] only writes to the console when [PROXY_DEBUG] is set and
      has no influence on the response; it is left out. *)

From Stdlib Require Import ZArith Ascii String List Lia.
From Stdlib Require Strings.Byte.
From stdpp Require Import base option strings gmap sorting pretty.

Local Open Scope Z_scope.
Set Warnings "-register-all,-clear-no-such-hyp".

(** ** Completions: a normal value or a thrown exception *)

Inductive Exception := TypeError | RangeError | SyntaxError.

Inductive Completion (A : Type) :=
| Normal (a : A)
| Throw (e : Exception).
Arguments Normal {A} a.
Arguments Throw {A} e.

Definition Completion_bind {A B} (f : A → Completion B) (c : Completion A)
  : Completion B :=
  match c with
  | Normal a => f a
  | Throw e => Throw e
  end.

#[global] Instance Completion_ret : MRet Completion := @Normal.
#[global] Instance Completion_mbind : MBind Completion := @Completion_bind.

(** [for (const x of l) body] with a loop-carried value. *)
Fixpoint for_of {A S} (l : list A) (body : S → A → Completion S) (s : S)
  : Completion S :=
  match l with
  | [] => Normal s
  | x :: l' => s' ← body s x; for_of l' body s'
  end.

(** ** Strings *)

Module Str.

Definition code (c : ascii) : N := N_of_ascii c.

(** ASCII lower-casing of one character, and of a string: the
    byte-lowercase of the Fetch and URL standards. *)
Definition byte_lower_char (c : ascii) : ascii :=
  if ((65 <=? code c) && (code c <=? 90))%N
  then ascii_of_N (code c + 32) else c.

Fixpoint byte_lowercase (s : string) : string :=
  match s with
  | EmptyString => EmptyString
  | String c s' => String (byte_lower_char c) (byte_lowercase s')
  end.

(** Lower-casing of a code unit below 256: the ASCII capitals and the
    Latin-1 capitals (192 to 222 without the multiplication sign). *)
Definition lower_char (c : ascii) : ascii :=
  if ((65 <=? code c) && (code c <=? 90))%N
     || ((192 <=? code c) && (code c <=? 222) && negb (code c =? 215))%N
  then ascii_of_N (code c + 32) else c.

(** [s.toLowerCase()] *)
Fixpoint toLowerCase (s : string) : string :=
  match s with
  | EmptyString => EmptyString
  | String c s' => String (lower_char c) (toLowerCase s')
  end.

(** [s.startsWith(p)] *)
Definition startsWith (s p : string) : bool := String.prefix p s.

(** White space of [String.prototype.trim] among the bytes: TAB, LF, VT,
    FF, CR, SP and NBSP. *)
Definition is_js_space (c : ascii) : bool :=
  (((9 <=? code c) && (code c <=? 13)) || (code c =? 32) || (code c =? 160))%N.

Fixpoint drop_while (p : ascii → bool) (s : string) : string :=
  match s with
  | EmptyString => EmptyString
  | String c s' => if p c then drop_while p s' else s
  end.

(** Removes the longest suffix all of whose characters satisfy [p]. *)
Fixpoint drop_end_while (p : ascii → bool) (s : string) : string :=
  match s with
  | EmptyString => EmptyString
  | String c s' =>
      match drop_end_while p s' with
      | EmptyString => if p c then EmptyString else String c EmptyString
      | r => String c r
      end
  end.

Definition strip (p : ascii → bool) (s : string) : string :=
  drop_end_while p (drop_while p s).

(** [s.trim()] *)
Definition trim (s : string) : string := strip is_js_space s.

(** [s.split(sep)] for a one-character separator. *)
Fixpoint split (sep : ascii) (s : string) : list string :=
  match s with
  | EmptyString => [EmptyString]
  | String c s' =>
      if Ascii.eqb c sep then EmptyString :: split sep s'
      else match split sep s' with
           | [] => [String c EmptyString]
           | w :: ws => String c w :: ws
           end
  end.

Fixpoint drop (n : nat) (s : string) : string :=
  match n, s with
  | O, _ => s
  | S n', String _ s' => drop n' s'
  | S _, EmptyString => EmptyString
  end.

(** [s.replace(pat, rep)] with a string pattern: the first occurrence. *)
Fixpoint replace (pat rep s : string) : string :=
  if String.prefix pat s then rep +:+ drop (String.length pat) s
  else match s with
       | EmptyString => EmptyString
       | String c s' => String c (replace pat rep s')
       end.

Fixpoint forallb (p : ascii → bool) (s : string) : bool :=
  match s with
  | EmptyString => true
  | String c s' => p c && forallb p s'
  end.

(** [arr.join(sep)] *)
Fixpoint join (sep : string) (l : list string) : string :=
  match l with
  | [] => EmptyString
  | [x] => x
  | x :: l' => x +:+ sep +:+ join sep l'
  end.

End Str.

(** Truthiness of a value of type [string | undefined] (or [| null]). *)
Definition truthy (v : option string) : bool :=
  match v with
  | Some s => negb (String.eqb s "")
  | None => false
  end.

(** [v || d] on such a value. *)
Definition or_else (v : option string) (d : string) : string :=
  match v with
  | Some s => if String.eqb s "" then d else s
  | None => d
  end.

(** ** Headers

    A [Headers] object as its methods show it: names compare without
    regard to case and are listed in lower case, one (combined) value per
    name.  The map is keyed by the lower-cased name. *)

Abbreviation Headers := (gmap string string).

Module Hdr.

(** Token characters of RFC 9110, the characters of a header name. *)
Definition is_token_char (c : ascii) : bool :=
  let n := Str.code c in
  (((48 <=? n) && (n <=? 57)) || ((65 <=? n) && (n <=? 90))
   || ((97 <=? n) && (n <=? 122))
   || existsb (N.eqb n) [33; 35; 36; 37; 38; 39; 42; 43; 45; 46; 94; 95; 96; 124; 126])%N.

Definition is_header_name (s : string) : bool :=
  negb (String.eqb s "") && Str.forallb is_token_char s.

(** HTTP whitespace: TAB, LF, CR, SP. *)
Definition is_http_whitespace (c : ascii) : bool :=
  existsb (N.eqb (Str.code c)) [9; 10; 13; 32]%N.

(** Normalisation of a value: leading and trailing HTTP whitespace is
    removed. *)
Definition normalize (v : string) : string := Str.strip is_http_whitespace v.

(** A header value holds no NUL, LF or CR. *)
Definition is_header_value (v : string) : bool :=
  Str.forallb (λ c, negb (existsb (N.eqb (Str.code c)) [0; 10; 13]%N)) v.

(** [h.get(name)]; [None] is [null]. *)
Definition get (h : Headers) (name : string) : Completion (option string) :=
  if is_header_name name then Normal (h !! Str.byte_lowercase name)
  else Throw TypeError.

(** [h.has(name)] *)
Definition has (h : Headers) (name : string) : Completion bool :=
  if is_header_name name then Normal (bool_decide (is_Some (h !! Str.byte_lowercase name)))
  else Throw TypeError.

(** [h.set(name, value)], returning the updated object. *)
Definition set (h : Headers) (name value : string) : Completion Headers :=
  let value := normalize value in
  if is_header_name name && is_header_value value
  then Normal (<[Str.byte_lowercase name := value]> h)
  else Throw TypeError.

(** The entries [h.forEach] and [h.entries()] visit: sorted by name. *)
Definition entries (h : Headers) : list (string * string) :=
  merge_sort (λ a b, String.le a.1 b.1) (map_to_list h).

(** A value that [set] stores as it is. *)
Definition clean (v : string) : bool :=
  String.eqb (normalize v) v && is_header_value v.

Definition wf_entry (kv : string * string) : bool :=
  is_header_name kv.1 && String.eqb (Str.byte_lowercase kv.1) kv.1 && clean kv.2.

(** A [Headers] object handed over by the platform holds lower-case
    names that are tokens and values that are normalised and legal. *)
Definition wf (h : Headers) : Prop := forallb wf_entry (map_to_list h) = true.

End Hdr.

(** ** JSON values, [Object.entries] and [String(v)] *)

(** What [JSON.parse] returns.  A number is kept as the text
    [Number.prototype.toString] gives for it; the properties of an object
    are listed in property order. *)
Inductive JSValue :=
| JNull
| JBool (b : bool)
| JNumber (text : string)
| JString (s : string)
| JArray (items : list JSValue)
| JObject (props : list (string * JSValue)).

(** [String(v)], the conversion a header value undergoes in [set]. *)
Fixpoint ToString (v : JSValue) : string :=
  match v with
  | JNull => "null"
  | JBool b => if b then "true" else "false"
  | JNumber text => text
  | JString s => s
  | JArray items =>
      Str.join ","
        (map (λ x, match x with JNull => "" | _ => ToString x end) items)
  | JObject _ => "[object Object]"
  end.

Fixpoint chars (s : string) : list string :=
  match s with
  | EmptyString => []
  | String c s' => String c EmptyString :: chars s'
  end.

(** Pairs each element with its index as a property name. *)
Definition indexed {A} (l : list A) : list (string * A) :=
  imap (λ i x, (pretty i, x)) l.

(** [Object.entries(v)] *)
Definition Object_entries (v : JSValue) : Completion (list (string * JSValue)) :=
  match v with
  | JNull => Throw TypeError
  | JBool _ | JNumber _ => Normal []
  | JString s => Normal (indexed (JString <$> chars s))
  | JArray items => Normal (indexed items)
  | JObject props => Normal props
  end.

(** [JSON.stringify] of an object all of whose values are strings. *)
Module Json.

Definition hex_digit (n : N) : ascii :=
  ascii_of_N (if (n <? 10)%N then 48 + n else 87 + n).

Definition quote_char (c : ascii) : string :=
  let n := Str.code c in
  if (n =? 34)%N || (n =? 92)%N then String "092"%char (String c "")
  else if (n =? 8)%N then "\b"
  else if (n =? 9)%N then "\t"
  else if (n =? 10)%N then "\n"
  else if (n =? 12)%N then "\f"
  else if (n =? 13)%N then "\r"
  else if (n <? 32)%N
       then "\u00" +:+ String (hex_digit (n / 16)) (String (hex_digit (n mod 16)) "")
  else String c "".

Fixpoint quote_body (s : string) : string :=
  match s with
  | EmptyString => EmptyString
  | String c s' => quote_char c +:+ quote_body s'
  end.

Definition dquote : string := String "034"%char "".

Definition quote (s : string) : string := dquote +:+ quote_body s +:+ dquote.

Definition stringify (fields : list (string * string)) : string :=
  "{" +:+ Str.join "," (map (λ kv, quote kv.1 +:+ ":" +:+ quote kv.2) fields) +:+ "}".

End Json.

(** ** Bodies and responses *)

(** A body is [null] or a stream, given by the bytes it delivers. *)
Abbreviation Body := (option (list Byte.byte)).

(** UTF-8 encoding of a string body. *)
Fixpoint utf8_encode (s : string) : list Byte.byte :=
  match s with
  | EmptyString => []
  | String c s' =>
      let n := Str.code c in
      if (n <? 128)%N then byte_of_ascii c :: utf8_encode s'
      else byte_of_ascii (ascii_of_N (192 + n / 64))
           :: byte_of_ascii (ascii_of_N (128 + n mod 64)) :: utf8_encode s'
  end.

Record Response := {
  resp_type : string;
  resp_url : string;
  resp_redirected : bool;
  resp_status : Z;
  resp_statusText : string;
  resp_headers : Headers;
  resp_body : Body;
}.

(** The value of a property read off an object. *)
Inductive Member :=
| M_undefined
| M_null
| M_bool (b : bool)
| M_number (n : Z)
| M_string (s : string)
| M_object (class : string)
| M_function (name : string).

Definition Member_ToString (m : Member) : string :=
  match m with
  | M_undefined => "undefined"
  | M_null => "null"
  | M_bool b => if b then "true" else "false"
  | M_number n => pretty n
  | M_string s => s
  | M_object class => "[object " +:+ class +:+ "]"
  | M_function name => "function " +:+ name +:+ "() { [native code] }"
  end.

Definition Response_methods : list string :=
  ["arrayBuffer"; "blob"; "bytes"; "clone"; "formData"; "json"; "text"].

(** [r[name]] on a [Response]: its attributes, its methods, and
    [undefined] for every other name. *)
Definition Response_member (r : Response) (name : string) : Member :=
  if String.eqb name "type" then M_string (resp_type r)
  else if String.eqb name "url" then M_string (resp_url r)
  else if String.eqb name "redirected" then M_bool (resp_redirected r)
  else if String.eqb name "status" then M_number (resp_status r)
  else if String.eqb name "ok"
       then M_bool ((200 <=? resp_status r) && (resp_status r <=? 299))
  else if String.eqb name "statusText" then M_string (resp_statusText r)
  else if String.eqb name "headers" then M_object "Headers"
  else if String.eqb name "body"
       then match resp_body r with
            | Some _ => M_object "ReadableStream"
            | None => M_null
            end
  else if String.eqb name "bodyUsed" then M_bool false
  else if bool_decide (name ∈ Response_methods) then M_function name
  else M_undefined.

Inductive BodyInit :=
| Init_null
| Init_string (s : string)
| Init_stream (bytes : list Byte.byte).

(** A [ReadableStream | null] passed as the body argument. *)
Definition BodyInit_of (b : Body) : BodyInit :=
  match b with
  | Some bytes => Init_stream bytes
  | None => Init_null
  end.

Inductive HeadersInit :=
| Init_Headers (h : Headers)
| Init_record (entries : list (string * string)).

Record ResponseInit := {
  init_status : Z;
  init_statusText : Member;
  init_headers : HeadersInit;
}.

Module Resp.

(** [h.append(name, value)] *)
Definition append (h : Headers) (name value : string) : Completion Headers :=
  let value := Hdr.normalize value in
  if Hdr.is_header_name name && Hdr.is_header_value value
  then Normal (<[Str.byte_lowercase name :=
                 match h !! Str.byte_lowercase name with
                 | Some old => old +:+ ", " +:+ value
                 | None => value
                 end]> h)
  else Throw TypeError.

Definition fill (i : HeadersInit) : Completion Headers :=
  match i with
  | Init_Headers h => Normal h
  | Init_record entries => for_of entries (λ h kv, append h kv.1 kv.2) ∅
  end.

(** Characters of a reason phrase: TAB, SP, visible ASCII and
    obs-text. *)
Definition is_reason_char (c : ascii) : bool :=
  let n := Str.code c in
  ((n =? 9) || (n =? 32) || ((33 <=? n) && (n <=? 126)) || (128 <=? n))%N.

Definition null_body_status (s : Z) : bool :=
  bool_decide (s ∈ [101; 103; 204; 205; 304]).

(** [new Response(body, init)] *)
Definition new (body : BodyInit) (init : ResponseInit) : Completion Response :=
  let statusText :=
    match init_statusText init with
    | M_undefined => ""
    | m => Member_ToString m
    end in
  if negb ((200 <=? init_status init) && (init_status init <=? 599))
  then Throw RangeError
  else if negb (Str.forallb is_reason_char statusText) then Throw TypeError
  else
    h ← fill (init_headers init);
    match body with
    | Init_null =>
        Normal {| resp_type := "default"; resp_url := ""; resp_redirected := false;
                  resp_status := init_status init; resp_statusText := statusText;
                  resp_headers := h; resp_body := None |}
    | Init_string s =>
        if null_body_status (init_status init) then Throw TypeError
        else
          Normal {| resp_type := "default"; resp_url := ""; resp_redirected := false;
                    resp_status := init_status init; resp_statusText := statusText;
                    resp_headers :=
                      match h !! "content-type" with
                      | Some _ => h
                      | None => <["content-type" := "text/plain;charset=UTF-8"]> h
                      end;
                    resp_body := Some (utf8_encode s) |}
    | Init_stream bytes =>
        if null_body_status (init_status init) then Throw TypeError
        else
          Normal {| resp_type := "default"; resp_url := ""; resp_redirected := false;
                    resp_status := init_status init; resp_statusText := statusText;
                    resp_headers := h; resp_body := Some bytes |}
    end.

End Resp.

(** ** The platform: URLs and [JSON.parse]

    The handler reads six attributes of a parsed URL and calls the
    constructor with and without a base; a failing constructor or parser
    (a thrown [TypeError] or [SyntaxError]) is [None]. *)

Class Runtime := {
  URL : Type;
  URL_new : string → option URL;
  URL_new_base : string → URL → option URL;
  URL_href : URL → string;
  URL_origin : URL → string;
  URL_protocol : URL → string;
  URL_host : URL → string;
  URL_pathname : URL → string;
  URL_search : URL → string;
  JSON_parse : string → option JSValue;
}.

(** ** Requests, the context and [fetch] *)

Record Request := {
  req_method : string;
  req_url : string;
  req_headers : Headers;
  req_body : Body;
}.

Record Context := { ctx_ip : string }.

(** The arguments of one [fetch(url, {method, headers, body, redirect})]. *)
Record FetchCall := {
  fetch_url : string;
  fetch_method : string;
  fetch_headers : Headers;
  fetch_body : Body;
  fetch_redirect : string;
}.

(** What [catch (error)] receives: an [Error] with its message, or any
    other value with its [String(error)]. *)
Inductive Thrown :=
| Thrown_Error (message : string)
| Thrown_other (as_string : string).

Inductive FetchOutcome :=
| Fulfilled (response : Response)
| Rejected (error : Thrown).

(** The handler either finishes without a network call or awaits one
    [fetch] and continues with its outcome. *)
Inductive Action :=
| Done (c : Completion Response)
| Await_fetch (call : FetchCall) (k : FetchOutcome → Completion Response).

(** Runs an action against the network; the second component lists the
    calls made. *)
Definition run (fetch : FetchCall → FetchOutcome) (a : Action)
  : Completion Response * list FetchCall :=
  match a with
  | Done c => (c, [])
  | Await_fetch call k => (k (fetch call), [call])
  end.

Definition DEFAULT_REQUEST_HEADERS : list string :=
  ["authorization"; "content-type"; "accept"; "accept-encoding";
   "accept-language"; "origin"; "cache-control"; "x-requested-with";
   "x-api-key"; "x-auth-token"].

Definition DEFAULT_RESPONSE_HEADERS : list string :=
  ["content-type"; "content-length"; "content-range"; "accept-ranges";
   "cache-control"; "etag"; "last-modified"; "location"].

Section Proxy.

Context `{Runtime}.

(** The process environment behind [Netlify.env.get]. *)
Variable env : gmap string string.

Definition TARGET_URL : option string := env !! "TARGET_URL".
Definition ALLOWED_HEADERS : string := or_else (env !! "ALLOWED_HEADERS") "".
Definition DEBUG : bool := bool_decide (env !! "PROXY_DEBUG" = Some "true").
Definition CUSTOM_HEADERS : string := or_else (env !! "CUSTOM_HEADERS") "{}".

Definition getAllowedRequestHeaders : list string :=
  if String.eqb ALLOWED_HEADERS "" then DEFAULT_REQUEST_HEADERS
  else map (λ h, Str.toLowerCase (Str.trim h)) (Str.split "," ALLOWED_HEADERS).

Definition parseCustomHeaders : JSValue :=
  match JSON_parse CUSTOM_HEADERS with
  | Some v => v
  | None => JObject []
  end.

(** [new Response(JSON.stringify(fields), {status, headers:
    {"Content-Type": "application/json"}})] *)
Definition json_response (status : Z) (fields : list (string * string))
  : Completion Response :=
  Resp.new (Init_string (Json.stringify fields))
    {| init_status := status; init_statusText := M_undefined;
       init_headers := Init_record [("Content-Type", "application/json")] |}.

(** Copies the headers of [names] that [source] holds with a non-empty
    value: the loop [for (const header of names)]. *)
Definition copy_named (source : Headers) (names : list string) (h : Headers)
  : Completion Headers :=
  for_of names (λ h header,
    value ← Hdr.get source header;
    if truthy value then Hdr.set h header (default "" value) else Normal h) h.

(** Copies the [x-] headers of [source] that are not set yet:
    [source.forEach((value, key) => ...)] and its callback. *)
Definition x_callback (h : Headers) (kv : string * string) : Completion Headers :=
  if Str.startsWith (Str.toLowerCase kv.1) "x-"
  then present ← Hdr.has h kv.1;
       if negb present then Hdr.set h kv.1 kv.2 else Normal h
  else Normal h.

Definition copy_x (source : Headers) (h : Headers) : Completion Headers :=
  for_of (Hdr.entries source) x_callback h.

(** Lines 113-135: the headers of the upstream call. *)
Definition request_headers (request : Request) (context : Context)
    (url targetBaseUrl : URL) : Completion Headers :=
  headers ← copy_named (req_headers request) getAllowedRequestHeaders ∅;
  headers ← copy_x (req_headers request) headers;
  headers ← Hdr.set headers "X-Forwarded-For" (ctx_ip context);
  headers ← Hdr.set headers "X-Forwarded-Proto" (Str.replace ":" "" (URL_protocol url));
  headers ← Hdr.set headers "X-Forwarded-Host" (URL_host url);
  Hdr.set headers "Host" (URL_host targetBaseUrl).

(** Sets a default unless the name is present. *)
Definition set_default (h : Headers) (name value : string) : Completion Headers :=
  present ← Hdr.has h name;
  if negb present then Hdr.set h name value else Normal h.

(** Lines 167-199: the headers of the client response, before the
    redirect is looked at. *)
Definition response_headers (response : Response) : Completion Headers :=
  responseHeaders ← copy_named (resp_headers response) DEFAULT_RESPONSE_HEADERS ∅;
  responseHeaders ← copy_x (resp_headers response) responseHeaders;
  customHeaders ← Object_entries parseCustomHeaders;
  responseHeaders ←
    for_of customHeaders (λ h kv, Hdr.set h kv.1 (ToString kv.2)) responseHeaders;
  responseHeaders ← set_default responseHeaders "Access-Control-Allow-Origin" "*";
  responseHeaders ← set_default responseHeaders "Access-Control-Allow-Methods"
    "GET, POST, PUT, DELETE, OPTIONS, HEAD, PATCH";
  set_default responseHeaders "Access-Control-Allow-Headers"
    "Authorization, Content-Type, X-Requested-With, X-API-Key, X-Auth-Token".

(** Lines 203-221: a redirect that points at the target is rewritten
    to the proxy's own origin. *)
Definition handle_redirect (response : Response) (url targetBaseUrl : URL)
    (responseHeaders : Headers) : Completion Headers :=
  if (300 <=? resp_status response) && (resp_status response <? 400) then
    location ← Hdr.get (resp_headers response) "location";
    if truthy location then
      let location := default "" location in
      let attempt :=
        match URL_new location with
        | None => Throw TypeError
        | Some locUrl =>
            if String.eqb (URL_origin locUrl) (URL_origin targetBaseUrl)
            then Hdr.set responseHeaders "Location"
                   (URL_origin url +:+ URL_pathname locUrl +:+ URL_search locUrl)
            else Hdr.set responseHeaders "Location" location
        end in
      match attempt with
      | Normal h => Normal h
      | Throw _ => Hdr.set responseHeaders "Location" location
      end
    else Normal responseHeaders
  else Normal responseHeaders.

(** [error instanceof Error ? error.message : String(error)] *)
Definition details_of (error : Thrown) : string :=
  match error with
  | Thrown_Error message => message
  | Thrown_other as_string => as_string
  end.

(** The continuation of [await fetch(...)]: the [catch] block, or
    lines 167-230. *)
Definition after_fetch (target : string) (url targetBaseUrl : URL)
    (outcome : FetchOutcome) : Completion Response :=
  match outcome with
  | Rejected error =>
      json_response 502
        [("error", "Proxy Error");
         ("message", "Failed to connect to target server");
         ("target", target);
         ("details", details_of error)]
  | Fulfilled response =>
      responseHeaders ← response_headers response;
      responseHeaders ← handle_redirect response url targetBaseUrl responseHeaders;
      Resp.new (BodyInit_of (resp_body response))
        {| init_status := resp_status response;
           init_statusText := Response_member response "statusStatusText";
           init_headers := Init_Headers responseHeaders |}
  end.

(** The default export. *)
Definition handler (request : Request) (context : Context) : Action :=
  if negb (truthy TARGET_URL) then
    Done (json_response 500
      [("error", "Configuration Error");
       ("message", "TARGET_URL environment variable is not set")])
  else
    let target := default "" TARGET_URL in
    match URL_new target with
    | None =>
        Done (json_response 500
          [("error", "Configuration Error");
           ("message", "Invalid TARGET_URL: " +:+ target)])
    | Some targetBaseUrl =>
        match URL_new (req_url request) with
        | None => Done (Throw TypeError)
        | Some url =>
            match URL_new_base (URL_pathname url +:+ URL_search url) targetBaseUrl with
            | None => Done (Throw TypeError)
            | Some targetUrl =>
                match request_headers request context url targetBaseUrl with
                | Throw e => Done (Throw e)
                | Normal headers =>
                    Await_fetch
                      {| fetch_url := URL_href targetUrl;
                         fetch_method := req_method request;
                         fetch_headers := headers;
                         fetch_body := req_body request;
                         fetch_redirect := "manual" |}
                      (after_fetch target url targetBaseUrl)
                end
            end
        end
    end.

End Proxy.

(** ** The sibling function, netlify/edge-functions/proxy.js

    The older function of the repository.  It reads its target from an
    identifier, [JELLYFIN_URL], that the file never binds; a read of an
    identifier is a lookup in the global scope and throws a
    [ReferenceError] when the name is unbound.  Its [try] block covers
    the [fetch] and the whole construction of the response. *)

(** How a call of the function ends. *)
Inductive Ending :=
| Returned (r : Response)
| Raised (e : Exception)
| Raised_ReferenceError (identifier : string).

(** What [catch (error)] binds, as far as [error.message] shows it: a
    value with its [message] member, or [null] or [undefined], on which
    the read of a member throws. *)
Inductive Caught :=
| Caught_with (message : Member)
| Caught_nullish.

Inductive JsFetchOutcome :=
| Js_fulfilled (response : Response)
| Js_rejected (error : Caught).

Inductive JsAction :=
| Js_done (e : Ending)
| Js_await (call : FetchCall) (k : JsFetchOutcome → Ending).

(** [a || b] on values of type [string | null]. *)
Definition or_opt (a b : option string) : option string :=
  if truthy a then a else b.

(** Line 2 of proxy.js; the handler does not read it. *)
Definition TARGET_URL_js (env : gmap string string) : string :=
  or_else (env !! "TARGET_URL") "https://google.com".

Section ProxyJs.

Context `{Runtime}.

(** The string-valued bindings of the global scope. *)
Variable globals : gmap string string.

(** The message of an exception thrown by the platform. *)
Variable message_of : Exception → string.

(** Lines 9-14: a copy of the request headers with five of them set. *)
Definition js_request_headers (request : Request) (url : URL)
    (JELLYFIN_URL : string) : Completion Headers :=
  headers ← Resp.fill (Init_Headers (req_headers request));
  headers ← Hdr.set headers "X-Forwarded-Proto" "https";
  headers ← Hdr.set headers "X-Forwarded-Host" (URL_host url);
  forwarded ← Hdr.get (req_headers request) "x-forwarded-for";
  real ← (if truthy forwarded then Normal None
          else Hdr.get (req_headers request) "x-real-ip");
  headers ← Hdr.set headers "X-Forwarded-For" (or_else (or_opt forwarded real) "");
  forwarded ← Hdr.get (req_headers request) "x-forwarded-for";
  headers ← Hdr.set headers "X-Real-IP" (or_else forwarded "");
  match URL_new JELLYFIN_URL with
  | None => Throw TypeError
  | Some target => Hdr.set headers "Host" (URL_host target)
  end.

(** Lines 25-35: a copy of the upstream headers with four CORS headers
    set, and the response assembled from it. *)
Definition js_response (response : Response) : Completion Response :=
  newHeaders ← Resp.fill (Init_Headers (resp_headers response));
  newHeaders ← Hdr.set newHeaders "Access-Control-Allow-Origin" "*";
  newHeaders ← Hdr.set newHeaders "Access-Control-Allow-Methods"
    "GET, POST, PUT, DELETE, OPTIONS, PATCH";
  newHeaders ← Hdr.set newHeaders "Access-Control-Allow-Headers" "*";
  newHeaders ← Hdr.set newHeaders "Access-Control-Allow-Credentials" "true";
  Resp.new (BodyInit_of (resp_body response))
    {| init_status := resp_status response;
       init_statusText := Response_member response "statusText";
       init_headers := Init_Headers newHeaders |}.

(** Lines 37-39: the [catch] block. *)
Definition js_catch (error : Caught) : Ending :=
  match error with
  | Caught_nullish => Raised TypeError
  | Caught_with message =>
      match Resp.new (Init_string ("Proxy Error: " +:+ Member_ToString message))
              {| init_status := 502; init_statusText := M_undefined;
                 init_headers := Init_record [] |} with
      | Normal r => Returned r
      | Throw e => Raised e
      end
  end.

(** The continuation of [await fetch(...)] inside the [try] block. *)
Definition js_after_fetch (outcome : JsFetchOutcome) : Ending :=
  match outcome with
  | Js_rejected error => js_catch error
  | Js_fulfilled response =>
      match js_response response with
      | Normal r => Returned r
      | Throw e => js_catch (Caught_with (M_string (message_of e)))
      end
  end.

(** The default export of proxy.js. *)
Definition handler_js (request : Request) : JsAction :=
  match URL_new (req_url request) with
  | None => Js_done (Raised TypeError)
  | Some url =>
      match globals !! "JELLYFIN_URL" with
      | None => Js_done (Raised_ReferenceError "JELLYFIN_URL")
      | Some JELLYFIN_URL =>
          let targetUrl := JELLYFIN_URL +:+ URL_pathname url +:+ URL_search url in
          match js_request_headers request url JELLYFIN_URL with
          | Throw e => Js_done (Raised e)
          | Normal headers =>
              Js_await
                {| fetch_url := targetUrl;
                   fetch_method := req_method request;
                   fetch_headers := headers;
                   fetch_body := req_body request;
                   fetch_redirect := "follow" |}
                js_after_fetch
          end
      end
  end.

End ProxyJs.

(** ** A reference platform

    An instance of [Runtime] on which the handler can be run.  The URL
    parser follows the states of the URL Standard (scheme, authority,
    path, query, fragment; relative references against a base) on a
    fragment of its inputs: the schemes [http] and [https], the
    characters of [is_url_char], no credentials, and a host of non-empty
    labels of letters, digits and [-] that is neither numeric nor
    Punycode.  On that fragment nothing is percent-encoded and the host
    is only lower-cased.  [JSON.parse] is covered for [null], booleans,
    integers of at most 15 digits, strings without escapes, arrays, and
    objects whose keys are not array indices.  Outside these fragments
    the instance answers [None], where the platform may accept. *)

Module Ref.

Fixpoint span (p : ascii → bool) (s : string) : string * string :=
  match s with
  | EmptyString => (EmptyString, EmptyString)
  | String c s' =>
      if p c then let '(a, b) := span p s' in (String c a, b)
      else (EmptyString, s)
  end.

Definition is_digit (c : ascii) : bool :=
  ((48 <=? Str.code c) && (Str.code c <=? 57))%N.

Definition is_alpha (c : ascii) : bool :=
  let n := Str.code c in
  (((65 <=? n) && (n <=? 90)) || ((97 <=? n) && (n <=? 122)))%N.

Definition one_of (set : string) (c : ascii) : bool :=
  existsb (Ascii.eqb c) (list_ascii_of_string set).

Definition is_url_char (c : ascii) : bool :=
  is_alpha c || is_digit c || one_of "-._~!$&()*+,;=:@/?#%" c.

Record url_record := {
  scheme : string;
  host : string;
  port : option N;
  path : list string;
  query : option string;
  fragment : option string;
}.

(** Scheme state: a letter, then letters, digits, [+], [-], [.], up to
    a colon. *)
Definition take_scheme (s : string) : option (string * string) :=
  match s with
  | String c _ =>
      if is_alpha c then
        match span (λ c, is_alpha c || is_digit c || one_of "+-." c) s with
        | (sch, String ":" rest) => Some (Str.byte_lowercase sch, rest)
        | _ => None
        end
      else None
  | EmptyString => None
  end.

Definition is_special (sch : string) : bool :=
  String.eqb sch "http" || String.eqb sch "https".

Definition default_port (sch : string) : N :=
  if String.eqb sch "http" then 80 else 443.

Fixpoint decimal (acc : N) (s : string) : N :=
  match s with
  | EmptyString => acc
  | String c s' => decimal (10 * acc + (Str.code c - 48)) s'
  end.

Definition parse_host (h : string) : option string :=
  let labels := Str.split "." h in
  if forallb (λ l, negb (String.eqb l "")
                   && Str.forallb (λ c, is_alpha c || is_digit c || one_of "-" c) l
                   && negb (Str.startsWith (Str.byte_lowercase l) "xn--")) labels
     && negb (match last labels with
              | Some (String c _) => is_digit c
              | _ => true
              end)
  then Some (Str.byte_lowercase h) else None.

Definition parse_port (sch p : string) : option (option N) :=
  if negb (Str.forallb is_digit p) then None
  else if String.eqb p "" then Some None
  else let n := decimal 0 p in
       if (65535 <? n)%N then None
       else if (n =? default_port sch)%N then Some None
       else Some (Some n).

Definition parse_authority (sch auth : string) : option (string * option N) :=
  if one_of auth "@" then None
  else
    let '(h, p) := span (λ c, negb (Ascii.eqb c ":")) auth in
    h' ← parse_host h;
    p' ← parse_port sch (match p with String _ digits => digits | _ => EmptyString end);
    Some (h', p').

Definition single_dot (seg : string) : bool :=
  bool_decide (Str.byte_lowercase seg ∈ ["."; "%2e"]).

Definition double_dot (seg : string) : bool :=
  bool_decide (Str.byte_lowercase seg ∈ [".."; ".%2e"; "%2e."; "%2e%2e"]).

(** Path state over the segments still to read; [acc] is the path so
    far, last segment first. *)
Fixpoint path_state (acc : list string) (segs : list string) : list string :=
  match segs with
  | [] => rev acc
  | seg :: rest =>
      let at_end := match rest with [] => true | _ => false end in
      if double_dot seg then
        path_state (if at_end then EmptyString :: tail acc else tail acc) rest
      else if single_dot seg then
        path_state (if at_end then EmptyString :: acc else acc) rest
      else path_state (seg :: acc) rest
  end.

(** Splits [s] at the first [sep]; the second component is what
    follows it, if it occurs. *)
Definition cut (sep : ascii) (s : string) : string * option string :=
  match span (λ c, negb (Ascii.eqb c sep)) s with
  | (a, String _ b) => (a, Some b)
  | (a, EmptyString) => (a, None)
  end.

(** Path, query and fragment states on what follows the authority, or
    on a reference that starts with one slash. *)
Definition parse_tail (sch : string) (hp : string * option N) (t : string)
  : url_record :=
  let '(pq, f) := cut "#" t in
  let '(p, q) := cut "?" pq in
  {| scheme := sch; host := hp.1; port := hp.2;
     path := path_state [] (Str.split "/" (Str.drop 1 p));
     query := q; fragment := f |}.

(** Special authority ignore slashes state, then the authority. *)
Definition parse_from_authority (sch rest : string) : option url_record :=
  let rest := Str.drop_while (Ascii.eqb "/") rest in
  let '(auth, t) := span (λ c, negb (one_of "/?#" c)) rest in
  hp ← parse_authority sch auth;
  Some (parse_tail sch hp t).

(** [new URL(s)] *)
Definition parse (s : string) : option url_record :=
  if negb (Str.forallb is_url_char s) then None
  else
    '(sch, rest) ← take_scheme s;
    if is_special sch then parse_from_authority sch rest else None.

(** Relative state. *)
Definition parse_relative (base : url_record) (s : string) : option url_record :=
  let hp := (host base, port base) in
  match s with
  | EmptyString =>
      Some {| scheme := scheme base; host := host base; port := port base;
              path := path base; query := query base; fragment := None |}
  | String "/" (String "/" _ as r) => parse_from_authority (scheme base) r
  | String "/" _ => Some (parse_tail (scheme base) hp s)
  | String "?" r =>
      let '(q, f) := cut "#" r in
      Some {| scheme := scheme base; host := host base; port := port base;
              path := path base; query := Some q; fragment := f |}
  | String "#" r =>
      Some {| scheme := scheme base; host := host base; port := port base;
              path := path base; query := query base; fragment := Some r |}
  | _ =>
      let '(pq, f) := cut "#" s in
      let '(p, q) := cut "?" pq in
      Some {| scheme := scheme base; host := host base; port := port base;
              path := path_state (tail (rev (path base))) (Str.split "/" p);
              query := q; fragment := f |}
  end.

(** [new URL(s, base)] *)
Definition parse_with_base (s : string) (base : url_record) : option url_record :=
  if negb (Str.forallb is_url_char s) then None
  else
    match take_scheme s with
    | Some (sch, rest) =>
        if negb (is_special sch) then None
        else if negb (String.eqb sch (scheme base)) then parse_from_authority sch rest
        else if Str.startsWith rest "//" then parse_from_authority sch rest
        else parse_relative base rest
    | None => parse_relative base s
    end.

Definition host_port (u : url_record) : string :=
  match port u with
  | Some n => host u +:+ ":" +:+ pretty n
  | None => host u
  end.

Definition origin (u : url_record) : string := scheme u +:+ "://" +:+ host_port u.

Definition pathname (u : url_record) : string :=
  String.concat "" (map (λ seg, "/" +:+ seg) (path u)).

Definition search (u : url_record) : string :=
  match query u with
  | Some (String _ _ as q) => "?" +:+ q
  | _ => EmptyString
  end.

Definition href (u : url_record) : string :=
  origin u +:+ pathname u
  +:+ match query u with Some q => "?" +:+ q | None => EmptyString end
  +:+ match fragment u with Some f => "#" +:+ f | None => EmptyString end.

(** *** [JSON.parse] *)

Definition is_json_ws (c : ascii) : bool :=
  existsb (N.eqb (Str.code c)) [9; 10; 13; 32]%N.

Definition skip_ws (s : string) : string := Str.drop_while is_json_ws s.

Definition is_quote (c : ascii) : bool := (Str.code c =? 34)%N.

(** The characters of a string up to its closing quote. *)
Definition string_body (s : string) : option (string * string) :=
  match span (λ c, negb (is_quote c)) s with
  | (body, String _ rest) =>
      if Str.forallb (λ c, (32 <=? Str.code c)%N && negb (Str.code c =? 92)%N) body
      then Some (body, rest) else None
  | _ => None
  end.

Definition number (s : string) : option (JSValue * string) :=
  let '(neg, s1) := match s with
                    | String "-" r => (true, r)
                    | _ => (false, s)
                    end in
  let '(digits, rest) := span is_digit s1 in
  if String.eqb digits "" || (15 <? String.length digits)%nat
     || (Str.startsWith digits "0" && negb (String.eqb digits "0"))
     || match rest with String c _ => one_of ".eE" c | _ => false end
  then None
  else Some (JNumber (if neg && negb (String.eqb digits "0")
                      then "-" +:+ digits else digits), rest).

(** Defines property [k]: a repeated key keeps its place and takes the
    later value. *)
Fixpoint define (k : string) (v : JSValue) (props : list (string * JSValue))
  : list (string * JSValue) :=
  match props with
  | [] => [(k, v)]
  | (k', v') :: props' =>
      if String.eqb k k' then (k, v) :: props' else (k', v') :: define k v props'
  end.

Fixpoint value (fuel : nat) (s : string) : option (JSValue * string) :=
  match fuel with
  | O => None
  | S fuel =>
      match skip_ws s with
      | String c r as s' =>
          if is_quote c then '(str, r') ← string_body r; Some (JString str, r')
          else if Ascii.eqb c "[" then
            match skip_ws r with
            | String "]" r' => Some (JArray [], r')
            | _ => elements fuel [] r
            end
          else if Ascii.eqb c "{" then
            match skip_ws r with
            | String "}" r' => Some (JObject [], r')
            | _ => members fuel [] r
            end
          else if Str.startsWith s' "null" then Some (JNull, Str.drop 4 s')
          else if Str.startsWith s' "true" then Some (JBool true, Str.drop 4 s')
          else if Str.startsWith s' "false" then Some (JBool false, Str.drop 5 s')
          else number s'
      | EmptyString => None
      end
  end
with elements (fuel : nat) (acc : list JSValue) (s : string)
  : option (JSValue * string) :=
  match fuel with
  | O => None
  | S fuel =>
      '(v, r) ← value fuel s;
      match skip_ws r with
      | String "," r' => elements fuel (v :: acc) r'
      | String "]" r' => Some (JArray (rev (v :: acc)), r')
      | _ => None
      end
  end
with members (fuel : nat) (acc : list (string * JSValue)) (s : string)
  : option (JSValue * string) :=
  match fuel with
  | O => None
  | S fuel =>
      match skip_ws s with
      | String q r =>
          if is_quote q then
            '(k, r) ← string_body r;
            if Str.forallb is_digit k && negb (String.eqb k "") then None
            else
              match skip_ws r with
              | String ":" r =>
                  '(v, r) ← value fuel r;
                  match skip_ws r with
                  | String "," r' => members fuel (define k v acc) r'
                  | String "}" r' => Some (JObject (define k v acc), r')
                  | _ => None
                  end
              | _ => None
              end
          else None
      | EmptyString => None
      end
  end.

Definition json_parse (s : string) : option JSValue :=
  '(v, r) ← value (2 * String.length s + 2) s;
  if String.eqb (skip_ws r) "" then Some v else None.

End Ref.

(** The reference platform. *)
Definition reference : Runtime := {|
  URL := Ref.url_record;
  URL_new := Ref.parse;
  URL_new_base := Ref.parse_with_base;
  URL_href := Ref.href;
  URL_origin := Ref.origin;
  URL_protocol := λ u, Ref.scheme u +:+ ":";
  URL_host := Ref.host_port;
  URL_pathname := Ref.pathname;
  URL_search := Ref.search;
  JSON_parse := Ref.json_parse;
|}.

(** ** A sample exchange on the reference platform *)

Module Sample.

Definition target : string := "https://target.example/base".

Definition env : gmap string string := {[ "TARGET_URL" := target ]}.

Definition request : Request :=
  {| req_method := "GET";
     req_url := "https://proxy.example/a/b?x=1";
     req_headers :=
       list_to_map [("authorization", "Bearer x"); ("cookie", "c=1");
                    ("host", "proxy.example"); ("x-custom-trace", "123");
                    ("x-forwarded-for", "6.6.6.6")];
     req_body := None |}.

Definition context : Context := {| ctx_ip := "1.2.3.4" |}.

Definition url : Ref.url_record :=
  {| Ref.scheme := "https"; Ref.host := "proxy.example"; Ref.port := None;
     Ref.path := ["a"; "b"]; Ref.query := Some "x=1"; Ref.fragment := None |}.

Definition targetBaseUrl : Ref.url_record :=
  {| Ref.scheme := "https"; Ref.host := "target.example"; Ref.port := None;
     Ref.path := ["base"]; Ref.query := None; Ref.fragment := None |}.

Definition call : FetchCall :=
  {| fetch_url := "https://target.example/a/b?x=1";
     fetch_method := "GET";
     fetch_headers :=
       list_to_map [("authorization", "Bearer x"); ("x-custom-trace", "123");
                    ("x-forwarded-for", "1.2.3.4"); ("x-forwarded-proto", "https");
                    ("x-forwarded-host", "proxy.example"); ("host", "target.example")];
     fetch_body := None;
     fetch_redirect := "manual" |}.

(** An upstream redirect to the target's own origin. *)
Definition redirect : Response :=
  {| resp_type := "basic"; resp_url := "https://target.example/a/b?x=1";
     resp_redirected := false; resp_status := 302; resp_statusText := "Found";
     resp_headers :=
       list_to_map [("content-type", "text/html");
                    ("location", "https://target.example/foo?bar");
                    ("set-cookie", "a=b"); ("x-upstream", "u1")];
     resp_body := Some [Byte.x3c; Byte.x70; Byte.x3e] |}.

(** The same redirect with an [ETag] header that is present and empty. *)
Definition empty_etag : Response :=
  {| resp_type := "basic"; resp_url := "https://target.example/a/b?x=1";
     resp_redirected := false; resp_status := 302; resp_statusText := "Found";
     resp_headers :=
       list_to_map [("content-type", "text/html"); ("etag", "");
                    ("location", "https://target.example/foo?bar")];
     resp_body := Some [Byte.x3c; Byte.x70; Byte.x3e] |}.

(** A redirect whose [Location] header is present and empty. *)
Definition empty_location : Response :=
  {| resp_type := "basic"; resp_url := "https://target.example/a/b?x=1";
     resp_redirected := false; resp_status := 302; resp_statusText := "Found";
     resp_headers := list_to_map [("content-type", "text/html"); ("location", "")];
     resp_body := Some [Byte.x3c; Byte.x70; Byte.x3e] |}.

(** The environment with custom response headers. *)
Definition env_custom : gmap string string :=
  <["CUSTOM_HEADERS" :=
      Json.stringify [("X-Upstream", "mine"); ("Access-Control-Allow-Origin",
                                                "https://app.example")]]> env.

(** The headers built for [redirect] under [env_custom], before the
    redirect is looked at. *)
Definition built : Headers :=
  list_to_map
    [("content-type", "text/html");
     ("location", "https://target.example/foo?bar");
     ("x-upstream", "mine");
     ("access-control-allow-origin", "https://app.example");
     ("access-control-allow-methods", "GET, POST, PUT, DELETE, OPTIONS, HEAD, PATCH");
     ("access-control-allow-headers",
      "Authorization, Content-Type, X-Requested-With, X-API-Key, X-Auth-Token")].

(** What the client receives for [redirect]. *)
Definition client_response : Response :=
  {| resp_type := "default"; resp_url := ""; resp_redirected := false;
     resp_status := 302; resp_statusText := "";
     resp_headers :=
       list_to_map
         [("content-type", "text/html");
          ("location", "https://proxy.example/foo?bar");
          ("x-upstream", "u1");
          ("access-control-allow-origin", "*");
          ("access-control-allow-methods", "GET, POST, PUT, DELETE, OPTIONS, HEAD, PATCH");
          ("access-control-allow-headers",
           "Authorization, Content-Type, X-Requested-With, X-API-Key, X-Auth-Token")];
     resp_body := Some [Byte.x3c; Byte.x70; Byte.x3e] |}.

(** The environment with [CUSTOM_HEADERS] set to the JSON text [null]. *)
Definition env_null : gmap string string := <["CUSTOM_HEADERS" := "null"]> env.

(** A request whose path starts with two slashes. *)
Definition escaping_request : Request :=
  {| req_method := "GET";
     req_url := "https://proxy.example//evil.example/x?y=1";
     req_headers := list_to_map [("accept", "*/*")];
     req_body := None |}.

End Sample.

(** ** Vocabulary of the statements *)

(** A non-empty value, as [if (value)] tests it. *)
Definition nonempty (o : option string) : option string :=
  match o with
  | Some v => if String.eqb v "" then None else Some v
  | None => None
  end.

(** What the custom entries make of a name: the value of the last
    entry whose name is [n] up to case. *)
Fixpoint last_custom (entries : list (string * JSValue)) (n : string)
  : option string :=
  match entries with
  | [] => None
  | (k, v) :: rest =>
      match last_custom rest n with
      | Some x => Some x
      | None => if String.eqb (Str.byte_lowercase k) n
                then Some (Hdr.normalize (ToString v)) else None
      end
  end.

(** What the two passthrough steps give a name: the upstream value of a
    standard header that is not empty, or of any [x-] header. *)
Definition passthrough (upstream : Headers) (n : string) : option string :=
  match (if bool_decide (n ∈ DEFAULT_RESPONSE_HEADERS)
         then nonempty (upstream !! n) else None) with
  | Some v => Some v
  | None => if Str.startsWith n "x-" then upstream !! n else None
  end.

(** The CORS defaults by lower-cased name. *)
Definition cors_default (n : string) : option string :=
  if decide (n = "access-control-allow-origin") then Some "*"
  else if decide (n = "access-control-allow-methods")
       then Some "GET, POST, PUT, DELETE, OPTIONS, HEAD, PATCH"
  else if decide (n = "access-control-allow-headers")
       then Some "Authorization, Content-Type, X-Requested-With, X-API-Key, X-Auth-Token"
  else None.

(** The value the redirect step writes: the rewritten location when
    the origins agree (and [set] accepts it), the upstream's own
    location in every other case. *)
Definition final_location `{Runtime} (url targetBaseUrl : URL) (location : string)
  : string :=
  match URL_new location with
  | Some locUrl =>
      let newLoc := URL_origin url +:+ URL_pathname locUrl +:+ URL_search locUrl in
      if String.eqb (URL_origin locUrl) (URL_origin targetBaseUrl)
      then if Hdr.is_header_value (Hdr.normalize newLoc)
           then Hdr.normalize newLoc else location
      else location
  | None => location
  end.

(** A custom entry that [Headers.set] accepts. *)
Definition legal_entry (kv : string * JSValue) : bool :=
  Hdr.is_header_name kv.1 && Hdr.is_header_value (Hdr.normalize (ToString kv.2)).

Definition json_headers : Headers := {[ "content-type" := "application/json" ]}.


(** ** Further sample data *)

Module More.

(** An allow-list with a trailing comma. *)
Definition env_trailing_comma : gmap string string :=
  <["ALLOWED_HEADERS" := "Accept, Authorization,"]> Sample.env.

(** A [201 Created] whose [Location] names the target itself. *)
Definition created : Response :=
  {| resp_type := "basic"; resp_url := "https://target.example/a/b?x=1";
     resp_redirected := false; resp_status := 201; resp_statusText := "Created";
     resp_headers :=
       list_to_map [("content-type", "application/json");
                    ("location", "https://target.example/items/7")];
     resp_body := Some [Byte.x7b; Byte.x7d] |}.

(** Custom headers with a name that holds a space. *)
Definition env_bad_custom : gmap string string :=
  <["CUSTOM_HEADERS" := Json.stringify [("X-Frame-Options", "DENY"); ("Bad Name", "x")]]>
    Sample.env.

(** A global scope that binds [JELLYFIN_URL]. *)
Definition globals : gmap string string :=
  {[ "JELLYFIN_URL" := "https://media.example/jf" ]}.

Definition message_of (e : Exception) : string :=
  match e with
  | TypeError => "invalid value"
  | RangeError => "status out of range"
  | SyntaxError => "unexpected token"
  end.

(** A request over plain http that names a forwarded address itself. *)
Definition plain_request : Request :=
  {| req_method := "POST";
     req_url := "http://proxy.example/a/b?x=1";
     req_headers :=
       list_to_map [("cookie", "c=1"); ("host", "proxy.example");
                    ("x-forwarded-for", "6.6.6.6"); ("x-real-ip", "7.7.7.7")];
     req_body := Some [Byte.x7b; Byte.x7d] |}.

(** An upstream answer with a status beyond 599. *)
Definition beyond : Response :=
  {| resp_type := "basic"; resp_url := "https://media.example/jf/a/b?x=1";
     resp_redirected := false; resp_status := 999; resp_statusText := "";
     resp_headers := list_to_map [("content-type", "text/html")];
     resp_body := Some [Byte.x3c; Byte.x70; Byte.x3e] |}.

End More.




(** A string that does not start with a character of [p]. *)
Definition starts_clear (p : ascii → bool) (s : string) : Prop :=
  match s with
  | EmptyString => True
  | String c _ => p c = false
  end.

(** * Properties *)

(** ** The platform functions on examples *)

Example split_trim_lower :
  map (λ h, Str.toLowerCase (Str.trim h)) (Str.split "," "Accept, X-Api-Key ,,cookie")
  = ["accept"; "x-api-key"; ""; "cookie"].
Proof. reflexivity. Qed.

Example replace_first : Str.replace ":" "" "https:" = "https".
Proof. reflexivity. Qed.

Example entries_sorted :
  Hdr.entries (<["b" := "1"]> (<["a" := "2"]> (<["c" := "3"]> ∅)))
  = [("a", "2"); ("b", "1"); ("c", "3")].
Proof. reflexivity. Qed.

Example set_validates :
  Hdr.set ∅ "X-Foo" "  bar " = Normal {[ "x-foo" := "bar" ]} ∧
  Hdr.set ∅ "X Foo" "bar" = Throw TypeError ∧
  Hdr.get ∅ "" = Throw TypeError.
Proof. repeat split; reflexivity. Qed.

Example entries_of_values :
  Object_entries (JArray [JString "a"; JNull]) = Normal [("0", JString "a"); ("1", JNull)] ∧
  Object_entries (JString "ab") = Normal [("0", JString "a"); ("1", JString "b")] ∧
  Object_entries (JNumber "42") = Normal [] ∧
  Object_entries JNull = Throw TypeError.
Proof. repeat split; reflexivity. Qed.

Example string_of_values :
  ToString (JArray [JNumber "1"; JNull; JArray [JBool true; JString "x"]]) = "1,,true,x" ∧
  ToString (JObject [("a", JNull)]) = "[object Object]".
Proof. split; reflexivity. Qed.

Example stringify_escapes :
  Json.stringify [("details", "a\b")]
  = "{" +:+ Json.dquote +:+ "details" +:+ Json.dquote +:+ ":"
    +:+ Json.dquote +:+ "a\\b" +:+ Json.dquote +:+ "}".
Proof. reflexivity. Qed.

Example url_normalised :
  Ref.href <$> Ref.parse "HTTPS://Target.Example:443/a/./b/../c?x=1#f"
  = Some "https://target.example/a/c?x=1#f".
Proof. reflexivity. Qed.

Example url_rejected :
  Ref.parse "/foo?bar" = None ∧ Ref.parse "target.example/base" = None ∧
  Ref.parse "https://" = None ∧ Ref.parse "" = None.
Proof. repeat split; reflexivity. Qed.

Example url_against_base :
  (base ← Ref.parse "https://target.example:8443/base/x";
   Ref.href <$> Ref.parse_with_base "/p/q?z" base)
  = Some "https://target.example:8443/p/q?z" ∧
  (base ← Ref.parse "https://target.example:8443/base/x";
   Ref.href <$> Ref.parse_with_base "p/q?z" base)
  = Some "https://target.example:8443/base/p/q?z" ∧
  (base ← Ref.parse "https://target.example:8443/base/x";
   Ref.href <$> Ref.parse_with_base "//other.example/p" base)
  = Some "https://other.example/p".
Proof. repeat split; reflexivity. Qed.

Example url_getters :
  (λ u, (Ref.origin u, Ref.host_port u, Ref.pathname u, Ref.search u))
    <$> Ref.parse "http://proxy.example:8080//evil.example/x?"
  = Some ("http://proxy.example:8080", "proxy.example:8080", "//evil.example/x", "").
Proof. reflexivity. Qed.

Example json_values :
  Ref.json_parse " [1, -0, null ,[true], {}] "
  = Some (JArray [JNumber "1"; JNumber "0"; JNull; JArray [JBool true]; JObject []]) ∧
  Ref.json_parse (Json.stringify [("X-Foo", "bar"); ("a", "b"); ("X-Foo", "c")])
  = Some (JObject [("X-Foo", JString "c"); ("a", JString "b")]).
Proof. split; reflexivity. Qed.

Example json_rejected :
  Ref.json_parse "{bad" = None ∧ Ref.json_parse "" = None ∧
  Ref.json_parse "[1,]" = None ∧ Ref.json_parse "nullx" = None.
Proof. repeat split; reflexivity. Qed.

(** ** Completions *)

(** Splits a hypothesis [(x ← c; k) = Normal r] into [c = Normal x] and
    the rest. *)
Tactic Notation "bind_inv" hyp(H) ident(x) ident(Hx) :=
  match type of H with
  | mbind _ ?c = Normal _ =>
      destruct c as [x|] eqn:Hx;
      [ change (mbind ?f (Normal x)) with (f x) in H; cbv beta in H
      | discriminate H ]
  end.

(** ** Strings *)

(** [toLowerCase] leaves nothing for the byte-lowercase to change. *)
Lemma byte_lower_lower_char c :
  Str.byte_lower_char (Str.lower_char c) = Str.lower_char c.
Proof. by destruct c as [[] [] [] [] [] [] [] []]. Qed.

Lemma byte_lowercase_toLowerCase s :
  Str.byte_lowercase (Str.toLowerCase s) = Str.toLowerCase s.
Proof.
  induction s as [|c s IH]; simpl; [done|]. by rewrite byte_lower_lower_char, IH.
Qed.

Lemma eqb_true s t : String.eqb s t = true ↔ s = t.
Proof. apply String.eqb_eq. Qed.

Lemma eqb_false s t : String.eqb s t = false ↔ s ≠ t.
Proof. apply String.eqb_neq. Qed.

Lemma truthy_Some o : truthy o = true ↔ ∃ v, o = Some v ∧ v ≠ "".
Proof.
  destruct o as [v|]; simpl.
  - rewrite negb_true_iff, eqb_false. naive_solver.
  - naive_solver.
Qed.

(** ** Headers *)

Lemma wf_lookup h k v :
  Hdr.wf h → h !! k = Some v →
  Hdr.is_header_name k = true ∧ Str.byte_lowercase k = k ∧
  Hdr.normalize v = v ∧ Hdr.is_header_value v = true.
Proof.
  unfold Hdr.wf. rewrite forallb_forall. intros Hwf Hk.
  specialize (Hwf (k, v)). rewrite <- list_elem_of_In, elem_of_map_to_list in Hwf.
  specialize (Hwf Hk). unfold Hdr.wf_entry, Hdr.clean in Hwf. simpl in Hwf.
  rewrite !andb_true_iff, !eqb_true in Hwf. naive_solver.
Qed.

Lemma get_Normal h name o :
  Hdr.get h name = Normal o →
  Hdr.is_header_name name = true ∧ o = h !! Str.byte_lowercase name.
Proof. unfold Hdr.get. destruct (Hdr.is_header_name name); naive_solver. Qed.

Lemma has_Normal h name b :
  Hdr.has h name = Normal b →
  Hdr.is_header_name name = true ∧ b = bool_decide (is_Some (h !! Str.byte_lowercase name)).
Proof. unfold Hdr.has. destruct (Hdr.is_header_name name); naive_solver. Qed.

Lemma set_Normal h name value h' :
  Hdr.set h name value = Normal h' →
  Hdr.is_header_name name = true ∧
  Hdr.is_header_value (Hdr.normalize value) = true ∧
  h' = <[Str.byte_lowercase name := Hdr.normalize value]> h.
Proof.
  unfold Hdr.set.
  destruct (Hdr.is_header_name name), (Hdr.is_header_value (Hdr.normalize value));
    naive_solver.
Qed.

Lemma set_ok h name value :
  Hdr.is_header_name name = true →
  Hdr.is_header_value (Hdr.normalize value) = true →
  Hdr.set h name value = Normal (<[Str.byte_lowercase name := Hdr.normalize value]> h).
Proof. unfold Hdr.set. by intros -> ->. Qed.

(** On a header name the two lower-casings agree. *)
Lemma token_lower_char c :
  Hdr.is_token_char c = true → Str.lower_char c = Str.byte_lower_char c.
Proof. destruct c as [[] [] [] [] [] [] [] []]; by vm_compute. Qed.

Lemma token_toLowerCase s :
  Str.forallb Hdr.is_token_char s = true → Str.toLowerCase s = Str.byte_lowercase s.
Proof.
  induction s as [|c s IH]; simpl; [done|].
  intros [Hc Hs]%andb_true_iff. by rewrite token_lower_char, IH.
Qed.

Lemma header_name_toLowerCase s :
  Hdr.is_header_name s = true → Str.toLowerCase s = Str.byte_lowercase s.
Proof.
  unfold Hdr.is_header_name. intros [_ Hs]%andb_true_iff. by apply token_toLowerCase.
Qed.

Lemma nonempty_Some o v : nonempty o = Some v ↔ o = Some v ∧ v ≠ "".
Proof.
  destruct o as [w|]; simpl; [|naive_solver].
  destruct (String.eqb w "") eqn:E.
  - apply eqb_true in E. naive_solver.
  - apply eqb_false in E. naive_solver.
Qed.

Lemma truthy_nonempty o : truthy o = true → nonempty o = o.
Proof. destruct o as [v|]; simpl; [|done]. by destruct (String.eqb v ""). Qed.

Lemma not_truthy_nonempty o : truthy o = false → nonempty o = None.
Proof. destruct o as [v|]; simpl; [|done]. by destruct (String.eqb v ""). Qed.

Section Copying.

Context `{Runtime}.

(** The loop over a list of names leaves a name's earlier value
    unless the source holds a non-empty value for it. *)
Lemma copy_named_lookup source names h h' n :
  Hdr.wf source →
  copy_named source names h = Normal h' →
  h' !! n =
    match (if bool_decide (n ∈ Str.byte_lowercase <$> names)
           then nonempty (source !! n) else None) with
    | Some v => Some v
    | None => h !! n
    end.
Proof.
  intros Hwf. unfold copy_named. revert h.
  induction names as [|header names IH]; intros h Hrun.
  { simpl in Hrun. by simplify_eq. }
  cbn [for_of] in Hrun. bind_inv Hrun h1 Hstep.
  bind_inv Hstep value Hget. apply get_Normal in Hget as [Hname ->].
  rewrite (IH _ Hrun). clear IH Hrun.
  rewrite fmap_cons.
  destruct (decide (n = Str.byte_lowercase header)) as [->|Hne].
  - rewrite (bool_decide_eq_true_2 (_ ∈ _ :: _)) by set_solver.
    destruct (truthy (source !! Str.byte_lowercase header)) eqn:Ht.
    + rewrite (truthy_nonempty _ Ht).
      apply truthy_Some in Ht as (v & Hv & Hnz). rewrite Hv in *.
      simpl in Hstep. apply set_Normal in Hstep as (_ & _ & ->).
      destruct (wf_lookup _ _ _ Hwf Hv) as (_ & _ & -> & _).
      rewrite lookup_insert_eq. by case_bool_decide.
    + rewrite (not_truthy_nonempty _ Ht). simplify_eq. by case_bool_decide.
  - assert (h1 !! n = h !! n) as ->.
    { destruct (truthy _); [|by simplify_eq].
      apply set_Normal in Hstep as (_ & _ & ->). by rewrite lookup_insert_ne. }
    assert (bool_decide (n ∈ Str.byte_lowercase header :: (Str.byte_lowercase <$> names))
            = bool_decide (n ∈ Str.byte_lowercase <$> names)) as ->; [|done].
    apply bool_decide_ext. set_solver.
Qed.

(** It runs to the end when the names are header names. *)
Lemma copy_named_total source names h :
  Hdr.wf source →
  forallb Hdr.is_header_name names = true →
  ∃ h', copy_named source names h = Normal h'.
Proof.
  intros Hwf. unfold copy_named. revert h.
  induction names as [|header names IH]; intros h Hnames; [by eexists|].
  simpl in Hnames. apply andb_true_iff in Hnames as [Hname Hnames].
  cbn [for_of]. unfold Hdr.get. rewrite Hname.
  change (mbind ?f (Normal ?x)) with (f x). cbv beta.
  destruct (truthy (source !! Str.byte_lowercase header)) eqn:Ht.
  - apply truthy_Some in Ht as (v & Hv & _). rewrite Hv. simpl.
    destruct (wf_lookup _ _ _ Hwf Hv) as (_ & _ & Hn & Hval).
    rewrite set_ok by by rewrite ?Hn.
    change (mbind ?f (Normal ?x)) with (f x). cbv beta. by apply IH.
  - change (mbind ?f (Normal ?x)) with (f x). cbv beta. by apply IH.
Qed.

Lemma x_callback_wf h k v :
  Hdr.wf_entry (k, v) = true →
  x_callback h (k, v) =
    Normal (if Str.startsWith k "x-" && negb (bool_decide (is_Some (h !! k)))
            then <[k:=v]> h else h).
Proof.
  unfold Hdr.wf_entry, Hdr.clean. cbn [fst snd].
  rewrite !andb_true_iff, !eqb_true. intros ((Hname & Hlow) & Hnorm & Hval).
  unfold x_callback, Hdr.has, Hdr.set. cbn [fst snd].
  rewrite (header_name_toLowerCase _ Hname), Hlow, Hname, Hnorm, Hval.
  destruct (Str.startsWith k "x-"); [|done].
  change (mbind ?f (Normal ?x)) with (f x). cbv beta.
  by destruct (bool_decide (is_Some (h !! k))).
Qed.

Lemma copy_x_list (l : list (string * string)) (h : Headers) :
  forallb Hdr.wf_entry l = true →
  ∃ h', for_of l x_callback h = Normal h' ∧
        ∀ n, h' !! n =
               match h !! n with
               | Some v => Some v
               | None => if Str.startsWith n "x-"
                         then (list_to_map l : Headers) !! n else None
               end.
Proof.
  revert h. induction l as [|[k v] l IH]; intros h Hl.
  { eexists; split; [done|]. intros n. rewrite list_to_map_nil, lookup_empty.
    by destruct (h !! n), (Str.startsWith n "x-"). }
  cbn [forallb] in Hl. apply andb_true_iff in Hl as [Hkv Hl].
  cbn [for_of]. rewrite (x_callback_wf _ _ _ Hkv).
  change (mbind ?f (Normal ?x)) with (f x). cbv beta.
  match goal with |- context [for_of l x_callback ?h1] =>
    destruct (IH h1 Hl) as (h' & -> & Hh') end.
  eexists; split; [done|]. intros n. rewrite Hh', list_to_map_cons. clear Hh' IH.
  destruct (decide (n = k)) as [->|Hne].
  - rewrite lookup_insert_eq.
    destruct (Str.startsWith k "x-") eqn:Hx; simpl andb; cbv iota.
    + case_bool_decide as Hpresent; simpl negb; cbv iota.
      * by destruct Hpresent as [w ->].
      * rewrite lookup_insert_eq.
        destruct (h !! k) as [w|] eqn:Hn; [by destruct Hpresent; eauto|done].
    + by destruct (h !! k).
  - rewrite (lookup_insert_ne (list_to_map l)) by done.
    destruct (Str.startsWith k "x-" && _); [|done].
    by rewrite lookup_insert_ne.
Qed.

Lemma entries_Permutation (h : Headers) : Hdr.entries h ≡ₚ map_to_list h.
Proof. apply merge_sort_Permutation. Qed.

Lemma list_to_map_entries (h : Headers) : list_to_map (Hdr.entries h) = h.
Proof.
  rewrite <- (list_to_map_to_list h) at 2.
  apply list_to_map_proper; [|apply entries_Permutation].
  rewrite entries_Permutation. apply NoDup_fst_map_to_list.
Qed.

(** The [forEach] callback copies exactly the [x-] headers whose name
    is not set yet; it never throws on a platform [Headers] object. *)
Lemma copy_x_lookup source h :
  Hdr.wf source →
  ∃ h', copy_x source h = Normal h' ∧
        ∀ n, h' !! n =
               match h !! n with
               | Some v => Some v
               | None => if Str.startsWith n "x-" then source !! n else None
               end.
Proof.
  intros Hwf.
  destruct (copy_x_list (Hdr.entries source) h) as (h' & Hrun & Hh').
  { unfold Hdr.wf in Hwf. rewrite forallb_forall in Hwf |- *.
    intros kv Hin. apply Hwf. rewrite <- list_elem_of_In in Hin |- *.
    by rewrite <- entries_Permutation. }
  exists h'. split; [exact Hrun|].
  intros n. rewrite Hh'. by rewrite list_to_map_entries.
Qed.

Lemma custom_lookup entries h h' n :
  for_of entries (λ h kv, Hdr.set h kv.1 (ToString kv.2)) h = Normal h' →
  h' !! n = match last_custom entries n with
            | Some x => Some x
            | None => h !! n
            end.
Proof.
  revert h. induction entries as [|[k v] entries IH]; intros h Hrun.
  { simpl in Hrun. by simplify_eq. }
  cbn [for_of] in Hrun. bind_inv Hrun h1 Hset. cbn [fst snd] in Hset.
  apply set_Normal in Hset as (_ & _ & ->).
  rewrite (IH _ Hrun). cbn [last_custom].
  destruct (last_custom entries n); [done|].
  destruct (String.eqb (Str.byte_lowercase k) n) eqn:E.
  - apply eqb_true in E as <-. by rewrite lookup_insert_eq.
  - apply eqb_false in E. by rewrite lookup_insert_ne.
Qed.

Lemma last_custom_None entries n :
  last_custom entries n = None ↔
  ∀ k v, (k, v) ∈ entries → Str.byte_lowercase k ≠ n.
Proof.
  induction entries as [|[k v] entries IH]; cbn [last_custom].
  { split; [|done]. intros _ k v Hin. by apply elem_of_nil in Hin. }
  destruct (last_custom entries n) as [x|].
  - split; [done|]. intros Hall. destruct IH as [_ IH].
    discriminate IH. intros k' v' Hin. apply (Hall k' v'). by right.
  - destruct (String.eqb (Str.byte_lowercase k) n) eqn:E.
    + apply eqb_true in E. split; [done|]. intros Hall.
      destruct (Hall k v); [left|done].
    + apply eqb_false in E. split; [|done]. intros _ k' v' Hin.
      apply elem_of_cons in Hin as [?|Hin]; [by simplify_eq|].
      by apply IH in Hin.
Qed.

Lemma last_custom_last l1 k v l2 n :
  Str.byte_lowercase k = n →
  (∀ k' v', (k', v') ∈ l2 → Str.byte_lowercase k' ≠ n) →
  last_custom (l1 ++ (k, v) :: l2) n = Some (Hdr.normalize (ToString v)).
Proof.
  intros Hk Hl2. apply last_custom_None in Hl2.
  induction l1 as [|[k1 v1] l1 IH]; simpl.
  - rewrite Hl2. apply eqb_true in Hk. by rewrite Hk.
  - by rewrite IH.
Qed.

Lemma set_default_lookup h name value h' n :
  set_default h name value = Normal h' →
  h' !! n = if decide (n = Str.byte_lowercase name)
            then match h !! n with
                 | Some v => Some v
                 | None => Some (Hdr.normalize value)
                 end
            else h !! n.
Proof.
  unfold set_default. intros Hrun. bind_inv Hrun present Hhas.
  apply has_Normal in Hhas as [_ ->].
  case_bool_decide as Hpresent; simpl in Hrun.
  - simplify_eq. case_decide as Hn; [|done]. subst n.
    by destruct Hpresent as [w ->].
  - apply set_Normal in Hrun as (_ & _ & ->).
    case_decide as Hn.
    + subst n. rewrite lookup_insert_eq.
      destruct (h !! Str.byte_lowercase name) eqn:E; [|done].
      destruct Hpresent. eauto.
    + by rewrite lookup_insert_ne.
Qed.

End Copying.

(** ** Responses the handler makes itself *)

Lemma fill_json :
  Resp.fill (Init_record [("Content-Type", "application/json")]) = Normal json_headers.
Proof. vm_compute. reflexivity. Qed.

(** An error response: the status, the JSON content type and the
    serialised object as body. *)
Lemma json_response_Normal status fields :
  (200 <=? status) && (status <=? 599) = true →
  Resp.null_body_status status = false →
  json_response status fields =
    Normal {| resp_type := "default"; resp_url := ""; resp_redirected := false;
              resp_status := status; resp_statusText := "";
              resp_headers := json_headers;
              resp_body := Some (utf8_encode (Json.stringify fields)) |}.
Proof.
  intros Hrange Hnull. unfold json_response, Resp.new.
  cbn [init_status init_statusText init_headers].
  rewrite Hrange, Hnull, fill_json. cbn [negb Str.forallb].
  change (mbind ?f (Normal ?x)) with (f x). cbv beta.
  unfold json_headers. by rewrite lookup_singleton_eq.
Qed.

Section Handler.

Context `{Runtime}.
Variable env : gmap string string.

(** The handler reaches [fetch] only with a target that parses, and
    then calls it with the resolved URL and the built headers. *)
Lemma handler_fetch_inv request context call k :
  handler env request context = Await_fetch call k →
  ∃ target targetBaseUrl url targetUrl headers,
    TARGET_URL env = Some target ∧
    URL_new target = Some targetBaseUrl ∧
    URL_new (req_url request) = Some url ∧
    URL_new_base (URL_pathname url +:+ URL_search url) targetBaseUrl = Some targetUrl ∧
    request_headers env request context url targetBaseUrl = Normal headers ∧
    call = {| fetch_url := URL_href targetUrl;
              fetch_method := req_method request;
              fetch_headers := headers;
              fetch_body := req_body request;
              fetch_redirect := "manual" |} ∧
    k = after_fetch env target url targetBaseUrl.
Proof.
  unfold handler. intros Hrun.
  destruct (truthy (TARGET_URL env)) eqn:Ht; [|discriminate Hrun].
  apply truthy_Some in Ht as (target & Ht & _). rewrite Ht in Hrun |- *.
  cbn [negb default from_option id] in Hrun.
  destruct (URL_new target) as [targetBaseUrl|] eqn:Htarget; [|discriminate Hrun].
  destruct (URL_new (req_url request)) as [url|] eqn:Hurl; [|discriminate Hrun].
  destruct (URL_new_base _ targetBaseUrl) as [targetUrl|] eqn:Hbase;
    [|discriminate Hrun].
  destruct (request_headers env request context url targetBaseUrl)
    as [headers|] eqn:Hh; [|discriminate Hrun].
  injection Hrun as <- <-. eexists _, _, _, _, _. repeat split; eauto.
Qed.

(** After a fulfilled [fetch] the response is assembled from the two
    header steps and the upstream status and body. *)
Lemma after_fetch_inv target url targetBaseUrl response r :
  after_fetch env target url targetBaseUrl (Fulfilled response) = Normal r →
  ∃ h h',
    response_headers env response = Normal h ∧
    handle_redirect response url targetBaseUrl h = Normal h' ∧
    Resp.new (BodyInit_of (resp_body response))
      {| init_status := resp_status response;
         init_statusText := Response_member response "statusStatusText";
         init_headers := Init_Headers h' |} = Normal r.
Proof.
  unfold after_fetch. intros Hrun.
  bind_inv Hrun h Hh. bind_inv Hrun h' Hh'. by exists h, h'.
Qed.

End Handler.

(** What [new Response(body, init)] keeps of its arguments. *)
Lemma Resp_new_inv body init r :
  Resp.new body init = Normal r →
  resp_status r = init_status init ∧
  resp_statusText r = match init_statusText init with
                      | M_undefined => ""
                      | m => Member_ToString m
                      end ∧
  resp_body r = match body with
                | Init_null => None
                | Init_string s => Some (utf8_encode s)
                | Init_stream bytes => Some bytes
                end ∧
  match body with
  | Init_string _ => True
  | _ => Resp.fill (init_headers init) = Normal (resp_headers r)
  end.
Proof.
  unfold Resp.new. intros Hnew.
  destruct (negb _); [discriminate Hnew|].
  destruct (negb _); [discriminate Hnew|].
  bind_inv Hnew h Hh.
  destruct body; [|destruct (Resp.null_body_status _); [discriminate Hnew|]..];
    by simplify_eq.
Qed.

(** ** The sample exchange, evaluated *)

Module SampleRun.

Import Sample.

Lemma request_wf : Hdr.wf (req_headers request).
Proof. vm_compute. reflexivity. Qed.

Lemma redirect_wf : Hdr.wf (resp_headers redirect).
Proof. vm_compute. reflexivity. Qed.

Lemma empty_etag_wf : Hdr.wf (resp_headers empty_etag).
Proof. vm_compute. reflexivity. Qed.

Lemma empty_location_wf : Hdr.wf (resp_headers empty_location).
Proof. vm_compute. reflexivity. Qed.

Lemma built_custom :
  response_headers (H := reference) env_custom redirect = Normal built.
Proof. reflexivity. Qed.

Lemma redirect_answer :
  after_fetch (H := reference) env target url targetBaseUrl (Fulfilled redirect)
  = Normal client_response.
Proof. reflexivity. Qed.

Lemma handler_awaits :
  handler (H := reference) env request context
  = Await_fetch call (after_fetch (H := reference) env target url targetBaseUrl).
Proof. reflexivity. Qed.

End SampleRun.


(** ** Configuration errors *)

(** C1.  When [TARGET_URL] is unset, or is set to a string that the URL
    constructor rejects, the handler answers every request with status
    500, the header [Content-Type: application/json] and a JSON body
    whose [error] field is "Configuration Error"; it finishes without
    calling [fetch], whatever the network would have answered. *)
Theorem config_error_500 `{Runtime} (env : gmap string string)
    (request : Request) (context : Context) :
  TARGET_URL env = None ∨ (∃ t, TARGET_URL env = Some t ∧ URL_new t = None) →
  ∃ message r,
    handler env request context = Done (Normal r) ∧
    resp_status r = 500 ∧
    resp_headers r = {[ "content-type" := "application/json" ]} ∧
    resp_body r = Some (utf8_encode (Json.stringify
                    [("error", "Configuration Error"); ("message", message)])) ∧
    ∀ fetch, (run fetch (handler env request context)).2 = [].
Proof.
  intros Hconfig. unfold handler.
  destruct (truthy (TARGET_URL env)) eqn:Ht; cbn [negb].
  - apply truthy_Some in Ht as (t & Ht & _).
    destruct Hconfig as [Hnone|(t' & Ht' & Hparse)]; [congruence|].
    assert (t' = t) as -> by congruence.
    rewrite Ht. cbn [default from_option id]. rewrite Hparse.
    rewrite json_response_Normal by reflexivity.
    exists ("Invalid TARGET_URL: " +:+ t). eexists.
    split; [reflexivity|]. cbn [resp_status resp_headers resp_body run snd].
    repeat split; reflexivity.
  - rewrite json_response_Normal by reflexivity.
    exists "TARGET_URL environment variable is not set". eexists.
    split; [reflexivity|]. cbn [resp_status resp_headers resp_body run snd].
    repeat split; reflexivity.
Qed.

Lemma config_error_500_witness :
  TARGET_URL (∅ : gmap string string) = None ∧
  ∃ message r,
    handler (H := reference) ∅ Sample.request Sample.context = Done (Normal r) ∧
    resp_status r = 500 ∧
    resp_headers r = {[ "content-type" := "application/json" ]} ∧
    resp_body r = Some (utf8_encode (Json.stringify
                    [("error", "Configuration Error"); ("message", message)])) ∧
    ∀ fetch, (run fetch (handler (H := reference) ∅ Sample.request Sample.context)).2 = [].
Proof.
  split; [reflexivity|].
  apply (config_error_500 (H := reference) ∅ Sample.request Sample.context).
  left. reflexivity.
Defined.

(** A target that is set but is no absolute URL. *)
Example config_error_invalid :
  ∃ r, handler (H := reference) {[ "TARGET_URL" := "target.example/base" ]}
         Sample.request Sample.context = Done (Normal r) ∧
       resp_status r = 500 ∧
       resp_body r = Some (utf8_encode (Json.stringify
                       [("error", "Configuration Error");
                        ("message", "Invalid TARGET_URL: target.example/base")])).
Proof. eexists. split; [reflexivity|]. split; reflexivity. Qed.

(** ** Transport failures *)



(** ** The headers of the upstream call *)

Section RequestHeaders.

Context `{Runtime}.
Variable env : gmap string string.

(** The four forwarding headers are written last, one after the
    other, over whatever the copying steps left. *)
Lemma request_headers_inv request context url targetBaseUrl headers :
  request_headers env request context url targetBaseUrl = Normal headers →
  ∃ h1 h2,
    copy_named (req_headers request) (getAllowedRequestHeaders env) ∅ = Normal h1 ∧
    copy_x (req_headers request) h1 = Normal h2 ∧
    headers =
      <["host" := Hdr.normalize (URL_host targetBaseUrl)]>
        (<["x-forwarded-host" := Hdr.normalize (URL_host url)]>
           (<["x-forwarded-proto" :=
                Hdr.normalize (Str.replace ":" "" (URL_protocol url))]>
              (<["x-forwarded-for" := Hdr.normalize (ctx_ip context)]> h2))).
Proof.
  unfold request_headers. intros Hrun.
  bind_inv Hrun h1 Hh1. bind_inv Hrun h2 Hh2.
  bind_inv Hrun h3 Hh3. bind_inv Hrun h4 Hh4. bind_inv Hrun h5 Hh5.
  apply set_Normal in Hh3 as (_ & _ & ->). apply set_Normal in Hh4 as (_ & _ & ->).
  apply set_Normal in Hh5 as (_ & _ & ->). apply set_Normal in Hrun as (_ & _ & ->).
  by exists h1, h2.
Qed.

End RequestHeaders.

(** C5.  Whenever the handler calls [fetch], the call's [Host] header is
    the host of the parsed [TARGET_URL], and [X-Forwarded-For],
    [X-Forwarded-Proto] and [X-Forwarded-Host] are the client address,
    the scheme of the request URL and its host: the values the request
    itself carried under these names are overwritten.  ([Headers.set]
    stores a value without its surrounding HTTP whitespace, which
    [Hdr.normalize] removes.) *)
Theorem forwarding_headers_set `{Runtime} (env : gmap string string)
    (request : Request) (context : Context) call k :
  handler env request context = Await_fetch call k →
  ∃ target targetBaseUrl url,
    TARGET_URL env = Some target ∧
    URL_new target = Some targetBaseUrl ∧
    URL_new (req_url request) = Some url ∧
    fetch_headers call !! "host" = Some (Hdr.normalize (URL_host targetBaseUrl)) ∧
    fetch_headers call !! "x-forwarded-for" = Some (Hdr.normalize (ctx_ip context)) ∧
    fetch_headers call !! "x-forwarded-proto"
      = Some (Hdr.normalize (Str.replace ":" "" (URL_protocol url))) ∧
    fetch_headers call !! "x-forwarded-host" = Some (Hdr.normalize (URL_host url)).
Proof.
  intros Hrun.
  destruct (handler_fetch_inv _ _ _ _ _ Hrun)
    as (target & tb & url & tu & headers & Ht & Htb & Hurl & _ & Hh & -> & _).
  destruct (request_headers_inv _ _ _ _ _ _ Hh) as (h1 & h2 & _ & _ & ->).
  exists target, tb, url. cbn [fetch_headers].
  repeat split; try done;
    repeat (rewrite lookup_insert_ne by discriminate); apply lookup_insert_eq.
Qed.

Lemma forwarding_headers_set_witness :
  handler (H := reference) Sample.env Sample.request Sample.context
  = Await_fetch Sample.call
      (after_fetch (H := reference) Sample.env Sample.target Sample.url Sample.targetBaseUrl) ∧
  ∃ target targetBaseUrl url,
    TARGET_URL Sample.env = Some target ∧
    URL_new (Runtime := reference) target = Some targetBaseUrl ∧
    URL_new (Runtime := reference) (req_url Sample.request) = Some url ∧
    fetch_headers Sample.call !! "host"
      = Some (Hdr.normalize (URL_host (Runtime := reference) targetBaseUrl)) ∧
    fetch_headers Sample.call !! "x-forwarded-for"
      = Some (Hdr.normalize (ctx_ip Sample.context)) ∧
    fetch_headers Sample.call !! "x-forwarded-proto"
      = Some (Hdr.normalize (Str.replace ":" "" (URL_protocol (Runtime := reference) url))) ∧
    fetch_headers Sample.call !! "x-forwarded-host"
      = Some (Hdr.normalize (URL_host (Runtime := reference) url)).
Proof.
  split; [reflexivity|].
  apply (forwarding_headers_set (H := reference) Sample.env Sample.request
           Sample.context Sample.call _ SampleRun.handler_awaits).
Defined.

(** The sample request names a host and a forwarded address of its own;
    neither reaches the upstream. *)
Example forwarding_headers_overwritten :
  req_headers Sample.request !! "host" = Some "proxy.example" ∧
  req_headers Sample.request !! "x-forwarded-for" = Some "6.6.6.6" ∧
  fetch_headers Sample.call !! "host" = Some "target.example" ∧
  fetch_headers Sample.call !! "x-forwarded-for" = Some "1.2.3.4" ∧
  fetch_headers Sample.call !! "x-forwarded-proto" = Some "https" ∧
  fetch_headers Sample.call !! "x-forwarded-host" = Some "proxy.example".
Proof. repeat split; reflexivity. Qed.

Section AllowList.

Context `{Runtime}.
Variable env : gmap string string.

Lemma fmap_lower_map (f : string → string) (l : list string) :
  Str.byte_lowercase <$> map (λ h, Str.toLowerCase (f h)) l
  = map (λ h, Str.toLowerCase (f h)) l.
Proof.
  induction l as [|x l IH]; [done|].
  cbn [map]. rewrite fmap_cons, IH. by rewrite byte_lowercase_toLowerCase.
Qed.

(** The allowed names are in lower case already. *)
Lemma allowed_lower :
  Str.byte_lowercase <$> getAllowedRequestHeaders env = getAllowedRequestHeaders env.
Proof.
  unfold getAllowedRequestHeaders.
  destruct (String.eqb (ALLOWED_HEADERS env) ""); [reflexivity|].
  apply fmap_lower_map.
Qed.

(** What the two copying steps leave under a name. *)
Lemma copied_lookup request h1 h2 n :
  Hdr.wf (req_headers request) →
  copy_named (req_headers request) (getAllowedRequestHeaders env) ∅ = Normal h1 →
  copy_x (req_headers request) h1 = Normal h2 →
  h2 !! n =
    match (if bool_decide (n ∈ getAllowedRequestHeaders env)
           then nonempty (req_headers request !! n) else None) with
    | Some v => Some v
    | None => if Str.startsWith n "x-" then req_headers request !! n else None
    end.
Proof.
  intros Hwf Hh1 Hh2.
  destruct (copy_x_lookup (req_headers request) h1 Hwf) as (h' & Hrun & Hh').
  assert (h' = h2) as -> by congruence.
  rewrite Hh', (copy_named_lookup _ _ _ _ n Hwf Hh1), allowed_lower, lookup_empty.
  by destruct (if bool_decide _ then _ else _).
Qed.

End AllowList.

(** C4.  Whenever the handler calls [fetch], a header of the request
    other than the four forwarding headers is part of the call exactly
    when its lower-cased name is in the allowed set and its value is not
    empty, or its name starts with [x-]; it then has the value it had in
    the request.  Every other header of the request is left out. *)
Theorem request_headers_filtered `{Runtime} (env : gmap string string)
    (request : Request) (context : Context) call k :
  Hdr.wf (req_headers request) →
  handler env request context = Await_fetch call k →
  ∀ name v,
    Str.byte_lowercase name ∉ ["x-forwarded-for"; "x-forwarded-proto";
                            "x-forwarded-host"; "host"] →
    (fetch_headers call !! Str.byte_lowercase name = Some v ↔
     req_headers request !! Str.byte_lowercase name = Some v ∧
     ((Str.byte_lowercase name ∈ getAllowedRequestHeaders env ∧ v ≠ "") ∨
      Str.startsWith (Str.byte_lowercase name) "x-" = true)).
Proof.
  intros Hwf Hrun name v. generalize (Str.byte_lowercase name). intros n Hn.
  destruct (handler_fetch_inv _ _ _ _ _ Hrun)
    as (target & tb & url & tu & headers & _ & _ & _ & _ & Hh & -> & _).
  destruct (request_headers_inv _ _ _ _ _ _ Hh) as (h1 & h2 & Hh1 & Hh2 & ->).
  cbn [fetch_headers].
  rewrite !lookup_insert_ne by (intros <-; apply Hn; set_solver).
  rewrite (copied_lookup env request h1 h2 n Hwf Hh1 Hh2).
  case_bool_decide as Hallowed.
  - destruct (nonempty (req_headers request !! n)) as [w|] eqn:Hw.
    + apply nonempty_Some in Hw as [Hw Hnz]. rewrite Hw.
      split; [intros [= ->]; eauto|]. by intros [? _].
    + destruct (Str.startsWith n "x-") eqn:Hx.
      * split; [eauto|]. by intros [? _].
      * split; [done|]. intros [Hv [[_ Hnz]|?]]; [|done].
        assert (nonempty (req_headers request !! n) = Some v) as Hsome
          by by apply nonempty_Some.
        congruence.
  - destruct (Str.startsWith n "x-") eqn:Hx.
    + split; [eauto|]. by intros [? _].
    + split; [done|]. intros [_ [[? _]|?]]; done.
Qed.

Lemma request_headers_filtered_witness :
  Hdr.wf (req_headers Sample.request) ∧
  handler (H := reference) Sample.env Sample.request Sample.context
  = Await_fetch Sample.call
      (after_fetch (H := reference) Sample.env Sample.target Sample.url Sample.targetBaseUrl) ∧
  ∀ name v,
    Str.byte_lowercase name ∉ ["x-forwarded-for"; "x-forwarded-proto";
                            "x-forwarded-host"; "host"] →
    (fetch_headers Sample.call !! Str.byte_lowercase name = Some v ↔
     req_headers Sample.request !! Str.byte_lowercase name = Some v ∧
     ((Str.byte_lowercase name ∈ getAllowedRequestHeaders Sample.env ∧ v ≠ "") ∨
      Str.startsWith (Str.byte_lowercase name) "x-" = true)).
Proof.
  split; [exact SampleRun.request_wf|]. split; [reflexivity|].
  apply (request_headers_filtered (H := reference) Sample.env Sample.request
           Sample.context Sample.call _ SampleRun.request_wf SampleRun.handler_awaits).
Defined.

(** On the sample request: the allowed [Authorization] header and the
    [x-] header arrive unchanged, the cookie is dropped. *)
Example request_headers_sample :
  fetch_headers Sample.call !! Str.byte_lowercase "Authorization" = Some "Bearer x" ∧
  fetch_headers Sample.call !! Str.byte_lowercase "X-Custom-Trace" = Some "123" ∧
  req_headers Sample.request !! Str.byte_lowercase "Cookie" = Some "c=1" ∧
  fetch_headers Sample.call !! Str.byte_lowercase "Cookie" = None.
Proof. repeat split; reflexivity. Qed.

(** ** The headers of the client response *)

Section ResponseHeaders.

Context `{Runtime}.
Variable env : gmap string string.

(** The four steps in one formula: a custom entry first, then the
    passthrough value, then the CORS default. *)
Lemma response_headers_lookup response final :
  Hdr.wf (resp_headers response) →
  response_headers env response = Normal final →
  ∃ entries,
    Object_entries (parseCustomHeaders env) = Normal entries ∧
    ∀ n, final !! n =
           match last_custom entries n with
           | Some x => Some x
           | None =>
               match passthrough (resp_headers response) n with
               | Some v => Some v
               | None => cors_default n
               end
           end.
Proof.
  intros Hwf. unfold response_headers. intros Hrun.
  bind_inv Hrun h1 Hh1. bind_inv Hrun h2 Hh2. bind_inv Hrun entries Hentries.
  bind_inv Hrun h3 Hh3. bind_inv Hrun h4 Hh4. bind_inv Hrun h5 Hh5.
  exists entries. split; [done|]. intros n.
  destruct (copy_x_lookup (resp_headers response) h1 Hwf) as (h' & Hrun' & Hh').
  assert (h' = h2) as -> by congruence.
  rewrite (set_default_lookup _ _ _ _ n Hrun), (set_default_lookup _ _ _ _ n Hh5),
    (set_default_lookup _ _ _ _ n Hh4), (custom_lookup _ _ _ n Hh3), Hh',
    (copy_named_lookup _ _ _ _ n Hwf Hh1), lookup_empty.
  change (Str.byte_lowercase <$> DEFAULT_RESPONSE_HEADERS) with DEFAULT_RESPONSE_HEADERS.
  change (Str.byte_lowercase "Access-Control-Allow-Origin")
    with "access-control-allow-origin".
  change (Str.byte_lowercase "Access-Control-Allow-Methods")
    with "access-control-allow-methods".
  change (Str.byte_lowercase "Access-Control-Allow-Headers")
    with "access-control-allow-headers".
  change (Hdr.normalize "*") with "*".
  change (Hdr.normalize "GET, POST, PUT, DELETE, OPTIONS, HEAD, PATCH")
    with "GET, POST, PUT, DELETE, OPTIONS, HEAD, PATCH".
  change (Hdr.normalize
            "Authorization, Content-Type, X-Requested-With, X-API-Key, X-Auth-Token")
    with "Authorization, Content-Type, X-Requested-With, X-API-Key, X-Auth-Token".
  unfold passthrough, cors_default.
  destruct (last_custom entries n) as [x|].
  { by repeat case_decide. }
  destruct (if bool_decide _ then _ else _) as [v|].
  { by repeat case_decide. }
  destruct (if Str.startsWith n "x-" then _ else _) as [v|].
  { by repeat case_decide. }
  repeat case_decide; simplify_eq; done.
Qed.

End ResponseHeaders.

(** C3, as the code has it.  The headers of the client response are
    built in this order of precedence: a [CUSTOM_HEADERS] entry is set
    whatever came before (of two entries with the same name up to case,
    the later one); below that, an upstream header of the standard set
    is copied when it is present with a non-empty value, and an upstream
    [x-] header is copied as it is; each CORS default is set when its
    name is still absent; no other header is set. *)
Theorem response_headers_precedence `{Runtime} (env : gmap string string)
    (response : Response) (final : Headers) :
  Hdr.wf (resp_headers response) →
  response_headers env response = Normal final →
  ∃ entries,
    Object_entries (parseCustomHeaders env) = Normal entries ∧
    ∀ n,
      (∀ l1 k v l2,
         entries = l1 ++ (k, v) :: l2 → Str.byte_lowercase k = n →
         (∀ k' v', (k', v') ∈ l2 → Str.byte_lowercase k' ≠ n) →
         final !! n = Some (Hdr.normalize (ToString v))) ∧
      ((∀ k v, (k, v) ∈ entries → Str.byte_lowercase k ≠ n) →
       (∀ v, n ∈ DEFAULT_RESPONSE_HEADERS →
             resp_headers response !! n = Some v → v ≠ "" → final !! n = Some v) ∧
       (∀ v, Str.startsWith n "x-" = true →
             resp_headers response !! n = Some v → final !! n = Some v) ∧
       (n = "access-control-allow-origin" → final !! n = Some "*") ∧
       (n = "access-control-allow-methods" →
        final !! n = Some "GET, POST, PUT, DELETE, OPTIONS, HEAD, PATCH") ∧
       (n = "access-control-allow-headers" →
        final !! n = Some "Authorization, Content-Type, X-Requested-With, X-API-Key, X-Auth-Token") ∧
       ((n ∉ DEFAULT_RESPONSE_HEADERS ∨ nonempty (resp_headers response !! n) = None) →
        (Str.startsWith n "x-" = false ∨ resp_headers response !! n = None) →
        n ∉ ["access-control-allow-origin"; "access-control-allow-methods";
             "access-control-allow-headers"] →
        final !! n = None)).
Proof.
  intros Hwf Hrun.
  destruct (response_headers_lookup env response final Hwf Hrun)
    as (entries & Hentries & Hfinal).
  exists entries. split; [done|]. intros n. split.
  { intros l1 k v l2 -> Hk Hl2. by rewrite Hfinal, (last_custom_last _ _ _ _ _ Hk Hl2). }
  intros Hnone. apply last_custom_None in Hnone.
  rewrite Hfinal, Hnone. clear Hfinal Hnone. unfold passthrough.
  repeat split.
  - intros v Hstd Hv Hnz. rewrite bool_decide_eq_true_2 by done.
    assert (nonempty (resp_headers response !! n) = Some v) as ->
      by by apply nonempty_Some.
    done.
  - intros v Hx Hv. rewrite Hx, Hv. case_bool_decide; [|done].
    cbn [nonempty]. by destruct (String.eqb v "").
  - by intros ->.
  - by intros ->.
  - by intros ->.
  - intros Hstd Hx Hcors.
    assert ((if bool_decide (n ∈ DEFAULT_RESPONSE_HEADERS)
             then nonempty (resp_headers response !! n) else None) = None) as ->.
    { case_bool_decide; [|done]. by destruct Hstd. }
    assert ((if Str.startsWith n "x-" then resp_headers response !! n else None)
            = None) as ->.
    { destruct Hx as [-> | ->]; [done|]. by destruct (Str.startsWith n "x-"). }
    unfold cors_default. repeat case_decide; [set_solver..|done].
Qed.

Lemma response_headers_precedence_witness :
  Hdr.wf (resp_headers Sample.redirect) ∧
  response_headers (H := reference) Sample.env_custom Sample.redirect
  = Normal Sample.built ∧
  ∃ entries,
    Object_entries (parseCustomHeaders (H := reference) Sample.env_custom)
    = Normal entries ∧
    ∀ n,
      (∀ l1 k v l2,
         entries = l1 ++ (k, v) :: l2 → Str.byte_lowercase k = n →
         (∀ k' v', (k', v') ∈ l2 → Str.byte_lowercase k' ≠ n) →
         Sample.built !! n = Some (Hdr.normalize (ToString v))) ∧
      ((∀ k v, (k, v) ∈ entries → Str.byte_lowercase k ≠ n) →
       (∀ v, n ∈ DEFAULT_RESPONSE_HEADERS →
             resp_headers Sample.redirect !! n = Some v → v ≠ "" →
             Sample.built !! n = Some v) ∧
       (∀ v, Str.startsWith n "x-" = true →
             resp_headers Sample.redirect !! n = Some v → Sample.built !! n = Some v) ∧
       (n = "access-control-allow-origin" → Sample.built !! n = Some "*") ∧
       (n = "access-control-allow-methods" →
        Sample.built !! n = Some "GET, POST, PUT, DELETE, OPTIONS, HEAD, PATCH") ∧
       (n = "access-control-allow-headers" →
        Sample.built !! n = Some "Authorization, Content-Type, X-Requested-With, X-API-Key, X-Auth-Token") ∧
       ((n ∉ DEFAULT_RESPONSE_HEADERS
         ∨ nonempty (resp_headers Sample.redirect !! n) = None) →
        (Str.startsWith n "x-" = false ∨ resp_headers Sample.redirect !! n = None) →
        n ∉ ["access-control-allow-origin"; "access-control-allow-methods";
             "access-control-allow-headers"] →
        Sample.built !! n = None)).
Proof.
  split; [exact SampleRun.redirect_wf|]. split; [exact SampleRun.built_custom|].
  apply (response_headers_precedence (H := reference) Sample.env_custom
           Sample.redirect Sample.built SampleRun.redirect_wf SampleRun.built_custom).
Defined.

(** On the sample: the custom [X-Upstream] replaces the upstream's, the
    custom [Access-Control-Allow-Origin] keeps the default out, and the
    upstream's [Set-Cookie] is not passed on. *)
Example response_headers_sample :
  resp_headers Sample.redirect !! "x-upstream" = Some "u1" ∧
  Sample.built !! "x-upstream" = Some "mine" ∧
  Sample.built !! "access-control-allow-origin" = Some "https://app.example" ∧
  resp_headers Sample.redirect !! "set-cookie" = Some "a=b" ∧
  Sample.built !! "set-cookie" = None.
Proof. repeat split; reflexivity. Qed.

(** C3, as stated, fails on a standard header that is present with an
    empty value: [if (value)] skips it, so the upstream's empty [ETag]
    is not copied. *)
Lemma empty_standard_header_not_copied :
  "etag" ∈ DEFAULT_RESPONSE_HEADERS ∧
  Hdr.get (resp_headers Sample.empty_etag) "etag" = Normal (Some "") ∧
  ∃ final,
    response_headers (H := reference) Sample.env Sample.empty_etag = Normal final ∧
    Hdr.get final "etag" = Normal None.
Proof.
  split; [set_solver|]. split; [reflexivity|].
  eexists. split; reflexivity.
Qed.

(** ** Redirects *)

Section Redirect.

Context `{Runtime}.

Lemma set_Location h v :
  Hdr.set h "Location" v =
    if Hdr.is_header_value (Hdr.normalize v)
    then Normal (<["location" := Hdr.normalize v]> h) else Throw TypeError.
Proof. reflexivity. Qed.

Lemma handle_redirect_run response url targetBaseUrl h location :
  Hdr.wf (resp_headers response) →
  300 ≤ resp_status response < 400 →
  resp_headers response !! "location" = Some location →
  location ≠ "" →
  handle_redirect response url targetBaseUrl h
  = Normal (<["location" := final_location url targetBaseUrl location]> h).
Proof.
  intros Hwf [Hlo Hhi] Hloc Hnz. unfold handle_redirect, final_location.
  apply Z.leb_le in Hlo. apply Z.ltb_lt in Hhi. rewrite Hlo, Hhi. cbn [andb].
  change (Hdr.get (resp_headers response) "location")
    with (Normal (resp_headers response !! "location")).
  change (mbind ?f (Normal ?x)) with (f x). cbv beta.
  rewrite Hloc. cbn [truthy default from_option id].
  apply eqb_false in Hnz. rewrite Hnz. cbn [negb].
  destruct (wf_lookup _ _ _ Hwf Hloc) as (_ & _ & Hnorm & Hval).
  assert (Hdr.set h "Location" location = Normal (<["location" := location]> h)) as Hset.
  { by rewrite set_Location, Hnorm, Hval. }
  destruct (URL_new location) as [locUrl|]; [|done].
  destruct (String.eqb (URL_origin locUrl) (URL_origin targetBaseUrl)); [|by rewrite Hset].
  rewrite set_Location.
  by destruct (Hdr.is_header_value (Hdr.normalize _)).
Qed.

End Redirect.

Lemma handle_redirect_total `{Runtime} response url targetBaseUrl h :
  Hdr.wf (resp_headers response) →
  ∃ h', handle_redirect response url targetBaseUrl h = Normal h'.
Proof.
  intros Hwf.
  destruct (decide (300 ≤ resp_status response < 400)) as [Hstatus|Hstatus].
  - destruct (resp_headers response !! "location") as [location|] eqn:Hloc.
    + destruct (decide (location = "")) as [->|Hnz].
      * unfold handle_redirect.
        change (Hdr.get (resp_headers response) "location")
          with (Normal (resp_headers response !! "location")).
        rewrite Hloc. destruct (_ && _); by eexists.
      * eexists. by apply handle_redirect_run.
    + unfold handle_redirect.
      change (Hdr.get (resp_headers response) "location")
        with (Normal (resp_headers response !! "location")).
      rewrite Hloc. destruct (_ && _); by eexists.
  - unfold handle_redirect.
    destruct ((300 <=? resp_status response) && (resp_status response <? 400)) eqn:E;
      [|by eexists].
    apply andb_true_iff in E as [?%Z.leb_le ?%Z.ltb_lt]. lia.
Qed.

(** C2, as the code has it.  The redirect step never fails on an
    upstream response.  For a status in [300, 400) and a non-empty
    [Location] header, the client-facing [Location] is: the proxy origin
    followed by the path and query of the location, when the location
    parses as an absolute URL of the target's origin (the rewritten
    string being a legal header value, as a serialised URL is); the
    upstream's location, unchanged, when it parses with another origin;
    and the upstream's location, unchanged, when it does not parse. *)
Theorem redirect_location `{Runtime} (response : Response)
    (url targetBaseUrl : URL) :
  Hdr.wf (resp_headers response) →
  (∀ h, ∃ h', handle_redirect response url targetBaseUrl h = Normal h') ∧
  ∀ location env target r,
    300 ≤ resp_status response < 400 →
    resp_headers response !! "location" = Some location →
    location ≠ "" →
    after_fetch env target url targetBaseUrl (Fulfilled response) = Normal r →
    (∀ locUrl,
       URL_new location = Some locUrl →
       URL_origin locUrl = URL_origin targetBaseUrl →
       Hdr.clean (URL_origin url +:+ URL_pathname locUrl +:+ URL_search locUrl) = true →
       resp_headers r !! "location"
       = Some (URL_origin url +:+ URL_pathname locUrl +:+ URL_search locUrl)) ∧
    (∀ locUrl,
       URL_new location = Some locUrl →
       URL_origin locUrl ≠ URL_origin targetBaseUrl →
       resp_headers r !! "location" = Some location) ∧
    (URL_new location = None → resp_headers r !! "location" = Some location).
Proof.
  intros Hwf. split.
  { intros h. by apply handle_redirect_total. }
  intros location env target r Hstatus Hloc Hnz Hrun.
  destruct (after_fetch_inv _ _ _ _ _ _ Hrun) as (h & h' & _ & Hh' & Hnew).
  rewrite (handle_redirect_run _ _ _ _ _ Hwf Hstatus Hloc Hnz) in Hh'.
  injection Hh' as <-.
  apply Resp_new_inv in Hnew as (_ & _ & _ & Hfill).
  assert (resp_headers r
          = <["location" := final_location url targetBaseUrl location]> h) as ->.
  { destruct (resp_body response); cbn in Hfill; congruence. }
  rewrite lookup_insert_eq. unfold final_location.
  repeat split.
  - intros locUrl -> Horigin Hclean. apply eqb_true in Horigin. rewrite Horigin.
    unfold Hdr.clean in Hclean. apply andb_true_iff in Hclean as [Hn Hv].
    apply eqb_true in Hn. by rewrite Hn, Hv.
  - intros locUrl -> Horigin. apply eqb_false in Horigin. by rewrite Horigin.
  - by intros ->.
Qed.

Lemma redirect_location_witness :
  Hdr.wf (resp_headers Sample.redirect) ∧
  300 ≤ resp_status Sample.redirect < 400 ∧
  resp_headers Sample.redirect !! "location" = Some "https://target.example/foo?bar" ∧
  after_fetch (H := reference) Sample.env Sample.target Sample.url
    Sample.targetBaseUrl (Fulfilled Sample.redirect) = Normal Sample.client_response ∧
  (∀ h, ∃ h', handle_redirect (H := reference) Sample.redirect Sample.url
                Sample.targetBaseUrl h = Normal h') ∧
  resp_headers Sample.client_response !! "location"
  = Some "https://proxy.example/foo?bar".
Proof.
  split; [exact SampleRun.redirect_wf|]. split; [done|]. split; [reflexivity|].
  split; [exact SampleRun.redirect_answer|].
  destruct (redirect_location (H := reference) Sample.redirect Sample.url
              Sample.targetBaseUrl SampleRun.redirect_wf) as [Htotal Hcases].
  split; [exact Htotal|].
  destruct (Hcases "https://target.example/foo?bar" Sample.env Sample.target
              Sample.client_response) as (Hsame & _ & _);
    [done|reflexivity|discriminate|exact SampleRun.redirect_answer|].
  apply (Hsame {| Ref.scheme := "https"; Ref.host := "target.example";
                  Ref.port := None; Ref.path := ["foo"];
                  Ref.query := Some "bar"; Ref.fragment := None |});
    reflexivity.
Defined.

(** The sample redirect, end to end: the client is sent back through
    the proxy. *)
Example redirect_sample :
  ∃ r, after_fetch (H := reference) Sample.env Sample.target Sample.url
         Sample.targetBaseUrl (Fulfilled Sample.redirect) = Normal r ∧
       resp_headers Sample.redirect !! "location" = Some "https://target.example/foo?bar" ∧
       resp_headers r !! "location" = Some "https://proxy.example/foo?bar".
Proof. eexists. repeat split; reflexivity. Qed.

(** The three cases on the reference platform: a location on the
    target's origin, one on another origin, and a relative one. *)
Example redirect_cases :
  final_location (H := reference) Sample.url Sample.targetBaseUrl
    "https://target.example/foo?bar" = "https://proxy.example/foo?bar" ∧
  final_location (H := reference) Sample.url Sample.targetBaseUrl
    "https://other.example/foo?bar" = "https://other.example/foo?bar" ∧
  final_location (H := reference) Sample.url Sample.targetBaseUrl
    "/foo?bar" = "/foo?bar".
Proof. repeat split; reflexivity. Qed.

(** C2, as stated, fails on a redirect whose [Location] header is
    present but empty: [if (location)] skips the whole step, and since
    the empty value was not copied either, the client-facing response
    has no [Location] header at all instead of the upstream's one. *)
Lemma empty_location_not_passed_through :
  resp_status Sample.empty_location = 302 ∧
  Hdr.get (resp_headers Sample.empty_location) "Location" = Normal (Some "") ∧
  URL_new (Runtime := reference) "" = None ∧
  ∃ call k r,
    handler (H := reference) Sample.env Sample.request Sample.context
    = Await_fetch call k ∧
    k (Fulfilled Sample.empty_location) = Normal r ∧
    Hdr.get (resp_headers r) "Location" = Normal None.
Proof.
  split; [reflexivity|]. split; [reflexivity|]. split; [reflexivity|].
  eexists _, _, _. split; [exact SampleRun.handler_awaits|]. split; reflexivity.
Qed.

(** ** Assembling the response *)

Section Assembly.

Context `{Runtime}.
Variable env : gmap string string.

Lemma custom_total entries h :
  forallb legal_entry entries = true →
  ∃ h', for_of entries (λ h kv, Hdr.set h kv.1 (ToString kv.2)) h = Normal h'.
Proof.
  revert h. induction entries as [|[k v] entries IH]; intros h Hlegal; [by eexists|].
  cbn [forallb] in Hlegal. apply andb_true_iff in Hlegal as [Hkv Hlegal].
  unfold legal_entry in Hkv. cbn [fst snd] in Hkv.
  apply andb_true_iff in Hkv as [Hname Hval].
  cbn [for_of fst snd]. rewrite set_ok by done.
  change (mbind ?f (Normal ?x)) with (f x). cbv beta. by apply IH.
Qed.

Lemma set_default_total h name value :
  Hdr.is_header_name name = true →
  Hdr.is_header_value (Hdr.normalize value) = true →
  ∃ h', set_default h name value = Normal h'.
Proof.
  intros Hname Hval. unfold set_default, Hdr.has. rewrite Hname.
  change (mbind ?f (Normal ?x)) with (f x). cbv beta.
  destruct (negb _); [|by eexists]. rewrite set_ok by done. by eexists.
Qed.

(** The headers are built whenever the custom headers have entries and
    each of them is a legal header. *)
Lemma response_headers_total response entries :
  Hdr.wf (resp_headers response) →
  Object_entries (parseCustomHeaders env) = Normal entries →
  forallb legal_entry entries = true →
  ∃ h, response_headers env response = Normal h.
Proof.
  intros Hwf Hentries Hlegal. unfold response_headers.
  destruct (copy_named_total (resp_headers response) DEFAULT_RESPONSE_HEADERS ∅ Hwf)
    as [h1 ->]; [reflexivity|].
  change (mbind ?f (Normal ?x)) with (f x). cbv beta.
  destruct (copy_x_lookup (resp_headers response) h1 Hwf) as (h2 & -> & _).
  change (mbind ?f (Normal ?x)) with (f x). cbv beta.
  rewrite Hentries.
  change (mbind ?f (Normal ?x)) with (f x). cbv beta.
  destruct (custom_total entries h2 Hlegal) as [h3 ->].
  change (mbind ?f (Normal ?x)) with (f x). cbv beta.
  destruct (set_default_total h3 "Access-Control-Allow-Origin" "*") as [h4 ->];
    [reflexivity..|].
  change (mbind ?f (Normal ?x)) with (f x). cbv beta.
  destruct (set_default_total h4 "Access-Control-Allow-Methods"
              "GET, POST, PUT, DELETE, OPTIONS, HEAD, PATCH") as [h5 ->];
    [reflexivity..|].
  change (mbind ?f (Normal ?x)) with (f x). cbv beta.
  apply set_default_total; reflexivity.
Qed.

(** With the headers built, the response is assembled for every status
    that a [Response] may carry. *)
Lemma after_fetch_total target url targetBaseUrl response :
  Hdr.wf (resp_headers response) →
  (∃ h, response_headers env response = Normal h) →
  200 ≤ resp_status response ≤ 599 →
  (Resp.null_body_status (resp_status response) = true → resp_body response = None) →
  ∃ r, after_fetch env target url targetBaseUrl (Fulfilled response) = Normal r.
Proof.
  intros Hwf [h Hh] [Hlo Hhi] Hnull. unfold after_fetch. rewrite Hh.
  change (mbind ?f (Normal ?x)) with (f x). cbv beta.
  destruct (handle_redirect_total response url targetBaseUrl h Hwf) as [h' ->].
  change (mbind ?f (Normal ?x)) with (f x). cbv beta.
  unfold Resp.new. cbn [init_status init_statusText init_headers].
  apply Z.leb_le in Hlo. apply Z.leb_le in Hhi. rewrite Hlo, Hhi.
  change (Response_member response "statusStatusText") with M_undefined.
  cbn [andb negb Str.forallb Resp.fill].
  change (mbind ?f (Normal ?x)) with (f x). cbv beta.
  destruct (resp_body response) as [bytes|]; cbn [BodyInit_of]; [|by eexists].
  destruct (Resp.null_body_status (resp_status response)); [|by eexists].
  by specialize (Hnull eq_refl).
Qed.

End Assembly.

(** C8.  After a fulfilled [fetch], the response the handler returns
    has the upstream's status code and the upstream's body, the same
    bytes whatever their number.  The handler does return a response
    when the response headers can be built and the upstream status is
    one a [Response] may carry (200 to 599, without a body where the
    status allows none). *)
Theorem status_and_body_passed_through `{Runtime} (env : gmap string string)
    (request : Request) (context : Context) call k (response : Response) :
  handler env request context = Await_fetch call k →
  (∀ r, k (Fulfilled response) = Normal r →
        resp_status r = resp_status response ∧ resp_body r = resp_body response) ∧
  (Hdr.wf (resp_headers response) →
   (∃ h, response_headers env response = Normal h) →
   200 ≤ resp_status response ≤ 599 →
   (Resp.null_body_status (resp_status response) = true → resp_body response = None) →
   ∃ r, k (Fulfilled response) = Normal r).
Proof.
  intros Hrun.
  destruct (handler_fetch_inv _ _ _ _ _ Hrun)
    as (target & tb & url & tu & headers & _ & _ & _ & _ & _ & _ & ->).
  split.
  - intros r Hr.
    destruct (after_fetch_inv _ _ _ _ _ _ Hr) as (h & h' & _ & _ & Hnew).
    apply Resp_new_inv in Hnew as (Hstatus & _ & Hbody & _).
    split; [done|]. rewrite Hbody. by destruct (resp_body response).
  - by apply after_fetch_total.
Qed.

Lemma status_and_body_passed_through_witness :
  handler (H := reference) Sample.env Sample.request Sample.context
  = Await_fetch Sample.call
      (after_fetch (H := reference) Sample.env Sample.target Sample.url Sample.targetBaseUrl) ∧
  after_fetch (H := reference) Sample.env Sample.target Sample.url
    Sample.targetBaseUrl (Fulfilled Sample.redirect) = Normal Sample.client_response ∧
  resp_status Sample.client_response = resp_status Sample.redirect ∧
  resp_body Sample.client_response = resp_body Sample.redirect ∧
  ∃ r, after_fetch (H := reference) Sample.env Sample.target Sample.url
         Sample.targetBaseUrl (Fulfilled Sample.redirect) = Normal r.
Proof.
  split; [reflexivity|]. split; [exact SampleRun.redirect_answer|].
  destruct (status_and_body_passed_through (H := reference) Sample.env Sample.request
              Sample.context Sample.call _ Sample.redirect SampleRun.handler_awaits)
    as [Hsame Htotal].
  destruct (Hsame Sample.client_response SampleRun.redirect_answer) as [Hstatus Hbody].
  split; [exact Hstatus|]. split; [exact Hbody|].
  apply Htotal.
  - exact SampleRun.redirect_wf.
  - eexists. reflexivity.
  - done.
  - discriminate.
Defined.

(** C9.  The status text of the returned response is read from the
    member [statusStatusText] of the upstream response, which no
    [Response] has: the read gives [undefined], the constructor falls
    back to its default, the empty string, and the upstream's own status
    text is never passed on. *)
Theorem status_text_default `{Runtime} (env : gmap string string)
    (request : Request) (context : Context) call k (response r : Response) :
  handler env request context = Await_fetch call k →
  k (Fulfilled response) = Normal r →
  Response_member response "statusStatusText" = M_undefined ∧
  resp_statusText r = "" ∧
  (resp_statusText response ≠ "" → resp_statusText r ≠ resp_statusText response).
Proof.
  intros Hrun Hr.
  destruct (handler_fetch_inv _ _ _ _ _ Hrun)
    as (target & tb & url & tu & headers & _ & _ & _ & _ & _ & _ & ->).
  destruct (after_fetch_inv _ _ _ _ _ _ Hr) as (h & h' & _ & _ & Hnew).
  apply Resp_new_inv in Hnew as (_ & Htext & _ & _).
  cbn [init_statusText] in Htext.
  change (Response_member response "statusStatusText") with M_undefined in Htext.
  split; [reflexivity|]. split; [done|]. intros Hnz. by rewrite Htext.
Qed.

Lemma status_text_default_witness :
  handler (H := reference) Sample.env Sample.request Sample.context
  = Await_fetch Sample.call
      (after_fetch (H := reference) Sample.env Sample.target Sample.url Sample.targetBaseUrl) ∧
  after_fetch (H := reference) Sample.env Sample.target Sample.url
    Sample.targetBaseUrl (Fulfilled Sample.redirect) = Normal Sample.client_response ∧
  resp_statusText Sample.redirect = "Found" ∧
  Response_member Sample.redirect "statusStatusText" = M_undefined ∧
  resp_statusText Sample.client_response = "" ∧
  (resp_statusText Sample.redirect ≠ "" →
   resp_statusText Sample.client_response ≠ resp_statusText Sample.redirect).
Proof.
  split; [reflexivity|]. split; [exact SampleRun.redirect_answer|].
  split; [reflexivity|].
  apply (status_text_default (H := reference) Sample.env Sample.request
           Sample.context Sample.call _ Sample.redirect Sample.client_response
           SampleRun.handler_awaits SampleRun.redirect_answer).
Defined.

(** ** Custom response headers *)

Section Custom.

Context `{Runtime}.
Variable env : gmap string string.

(** A text that [JSON.parse] rejects gives the empty mapping, and the
    loop over its entries does nothing. *)
Lemma parse_failure_is_empty :
  JSON_parse (CUSTOM_HEADERS env) = None →
  parseCustomHeaders env = JObject [] ∧
  Object_entries (parseCustomHeaders env) = Normal [].
Proof. unfold parseCustomHeaders. by intros ->. Qed.

(** The text [null] is accepted by [JSON.parse]; [Object.entries(null)]
    then throws for every upstream response. *)
Lemma null_custom_headers_throw target url targetBaseUrl response :
  Hdr.wf (resp_headers response) →
  JSON_parse (CUSTOM_HEADERS env) = Some JNull →
  after_fetch env target url targetBaseUrl (Fulfilled response) = Throw TypeError.
Proof.
  intros Hwf Hparse. unfold after_fetch, response_headers.
  destruct (copy_named_total (resp_headers response) DEFAULT_RESPONSE_HEADERS ∅ Hwf)
    as [h1 ->]; [reflexivity|].
  change (mbind ?f (Normal ?x)) with (f x). cbv beta.
  destruct (copy_x_lookup (resp_headers response) h1 Hwf) as (h2 & -> & _).
  change (mbind ?f (Normal ?x)) with (f x). cbv beta.
  unfold parseCustomHeaders. by rewrite Hparse.
Qed.

End Custom.

(** C7 at [CUSTOM_HEADERS=null].  The value is not a JSON object, yet
    the resolved custom headers are [null] and not the empty mapping,
    and the handler throws a [TypeError] once the upstream has
    answered instead of returning a response. *)
Theorem custom_headers_null_throws :
  CUSTOM_HEADERS Sample.env_null = "null" ∧
  parseCustomHeaders (H := reference) Sample.env_null = JNull ∧
  ∃ call k,
    handler (H := reference) Sample.env_null Sample.request Sample.context
    = Await_fetch call k ∧
    k (Fulfilled Sample.redirect) = Throw TypeError.
Proof.
  split; [reflexivity|]. split; [reflexivity|].
  eexists _, _. split; reflexivity.
Qed.

(** A JSON array is accepted as well: its indices become header names,
    where the empty mapping would add nothing. *)
Example custom_headers_array :
  Object_entries (parseCustomHeaders (H := reference)
                    (<["CUSTOM_HEADERS" := "[1]"]> Sample.env))
  = Normal [("0", JNumber "1")] ∧
  ∃ h, response_headers (H := reference) (<["CUSTOM_HEADERS" := "[1]"]> Sample.env)
         Sample.redirect = Normal h ∧
       h !! "0" = Some "1".
Proof. split; [reflexivity|]. eexists. split; reflexivity. Qed.

(** A text that is no JSON at all is the case the [catch] covers. *)
Example custom_headers_malformed :
  parseCustomHeaders (H := reference) (<["CUSTOM_HEADERS" := "{bad"]> Sample.env)
  = JObject [] ∧
  after_fetch (H := reference) (<["CUSTOM_HEADERS" := "{bad"]> Sample.env)
    Sample.target Sample.url Sample.targetBaseUrl (Fulfilled Sample.redirect)
  = Normal Sample.client_response.
Proof. split; reflexivity. Qed.

(** ** The upstream URL *)

(** On the sample request the path of [TARGET_URL] is dropped and the
    request's path and query follow the target's origin. *)
Example target_path_discarded :
  Sample.target = "https://target.example/base" ∧
  req_url Sample.request = "https://proxy.example/a/b?x=1" ∧
  fetch_url Sample.call = "https://target.example/a/b?x=1".
Proof. repeat split; reflexivity. Qed.

(** C10 at a request path that starts with two slashes.  The path and
    query of the request, resolved against the target, are read as a
    reference with an authority of its own: the call goes to the host
    named in the path, not to the target's origin followed by that path
    and query, while the [Host] header still names the target. *)
Theorem double_slash_path_leaves_target :
  ∃ targetBaseUrl url call k,
    URL_new (Runtime := reference) Sample.target = Some targetBaseUrl ∧
    URL_new (Runtime := reference) (req_url Sample.escaping_request) = Some url ∧
    handler (H := reference) Sample.env Sample.escaping_request Sample.context
    = Await_fetch call k ∧
    URL_pathname (Runtime := reference) url = "//evil.example/x" ∧
    URL_search (Runtime := reference) url = "?y=1" ∧
    URL_origin (Runtime := reference) targetBaseUrl = "https://target.example" ∧
    fetch_url call = "https://evil.example/x?y=1" ∧
    fetch_url call ≠ URL_origin (Runtime := reference) targetBaseUrl
                     +:+ URL_pathname (Runtime := reference) url
                     +:+ URL_search (Runtime := reference) url ∧
    fetch_headers call !! "host" = Some "target.example".
Proof.
  eexists _, _, _, _.
  split; [reflexivity|]. split; [reflexivity|]. split; [reflexivity|].
  repeat split; try reflexivity. discriminate.
Qed.

(** * Further properties *)

(** ** Trimming and lower-casing *)

Lemma drop_end_while_idem p s :
  Str.drop_end_while p (Str.drop_end_while p s) = Str.drop_end_while p s.
Proof.
  induction s as [|c s IH]; [done|]. cbn [Str.drop_end_while].
  destruct (Str.drop_end_while p s) as [|d r] eqn:Hr.
  - destruct (p c) eqn:Hc; [done|]. cbn [Str.drop_end_while]. by rewrite Hc.
  - cbn [Str.drop_end_while]. cbn [Str.drop_end_while] in IH. by rewrite IH.
Qed.

Lemma drop_while_starts_clear p s : starts_clear p (Str.drop_while p s).
Proof.
  induction s as [|c s IH]; [done|]. cbn [Str.drop_while].
  by destruct (p c) eqn:Hc.
Qed.

Lemma drop_while_clear p s : starts_clear p s → Str.drop_while p s = s.
Proof. destruct s as [|c s]; [done|]. cbn. by intros ->. Qed.

Lemma drop_end_while_starts_clear p s :
  starts_clear p s → starts_clear p (Str.drop_end_while p s).
Proof.
  destruct s as [|c s]; [done|]. cbn [starts_clear Str.drop_end_while]. intros Hc.
  destruct (Str.drop_end_while p s); [by rewrite Hc|done].
Qed.

(** Stripping twice is stripping once. *)
Lemma strip_idem p s : Str.strip p (Str.strip p s) = Str.strip p s.
Proof.
  unfold Str.strip.
  rewrite (drop_while_clear p (Str.drop_end_while p _)).
  - apply drop_end_while_idem.
  - apply drop_end_while_starts_clear, drop_while_starts_clear.
Qed.

Lemma lower_char_idem c : Str.lower_char (Str.lower_char c) = Str.lower_char c.
Proof. by destruct c as [[] [] [] [] [] [] [] []]. Qed.

Lemma toLowerCase_idem s : Str.toLowerCase (Str.toLowerCase s) = Str.toLowerCase s.
Proof. induction s as [|c s IH]; cbn; [done|]. by rewrite lower_char_idem, IH. Qed.

Lemma is_js_space_lower c : Str.is_js_space (Str.lower_char c) = Str.is_js_space c.
Proof. by destruct c as [[] [] [] [] [] [] [] []]. Qed.

Lemma drop_while_toLowerCase s :
  Str.drop_while Str.is_js_space (Str.toLowerCase s)
  = Str.toLowerCase (Str.drop_while Str.is_js_space s).
Proof.
  induction s as [|c s IH]; [done|]. cbn [Str.toLowerCase Str.drop_while].
  rewrite is_js_space_lower. by destruct (Str.is_js_space c).
Qed.

Lemma drop_end_while_toLowerCase s :
  Str.drop_end_while Str.is_js_space (Str.toLowerCase s)
  = Str.toLowerCase (Str.drop_end_while Str.is_js_space s).
Proof.
  induction s as [|c s IH]; [done|]. cbn [Str.toLowerCase Str.drop_end_while].
  rewrite IH, is_js_space_lower.
  destruct (Str.drop_end_while Str.is_js_space s); [|done].
  by destruct (Str.is_js_space c).
Qed.

Lemma trim_toLowerCase s : Str.trim (Str.toLowerCase s) = Str.toLowerCase (Str.trim s).
Proof.
  unfold Str.trim, Str.strip. by rewrite drop_while_toLowerCase, drop_end_while_toLowerCase.
Qed.

(** ** The allow-list *)

(** X1.  Whatever [ALLOWED_HEADERS] holds, every name of the allow-list
    is in lower case and carries no surrounding white space: the
    configured names may be written in any case and padded after the
    commas. *)
Theorem allowed_names_normalised (env : gmap string string) :
  Forall (λ name, Str.toLowerCase name = name ∧ Str.trim name = name)
    (getAllowedRequestHeaders env).
Proof.
  unfold getAllowedRequestHeaders.
  destruct (String.eqb (ALLOWED_HEADERS env) "").
  - repeat constructor.
  - apply Forall_forall. intros name Hin. apply list_elem_of_In, in_map_iff in Hin.
    destruct Hin as (h & <- & _). split.
    + apply toLowerCase_idem.
    + rewrite trim_toLowerCase. unfold Str.trim. by rewrite strip_idem.
Qed.

(** Every exception of the [Headers] methods is a [TypeError]. *)
Lemma get_Throw h name e : Hdr.get h name = Throw e → e = TypeError.
Proof. unfold Hdr.get. destruct (Hdr.is_header_name name); congruence. Qed.

Lemma has_Throw h name e : Hdr.has h name = Throw e → e = TypeError.
Proof. unfold Hdr.has. destruct (Hdr.is_header_name name); congruence. Qed.

Lemma set_Throw h name value e : Hdr.set h name value = Throw e → e = TypeError.
Proof. unfold Hdr.set. destruct (_ && _); congruence. Qed.

(** The loop over the names stops with a [TypeError] at a name that is
    no header name, if not before. *)
Lemma copy_named_invalid source names h :
  forallb Hdr.is_header_name names = false →
  copy_named source names h = Throw TypeError.
Proof.
  unfold copy_named. revert h.
  induction names as [|header names IH]; intros h Hnames; [discriminate Hnames|].
  cbn [forallb] in Hnames. cbn [for_of].
  destruct (Hdr.get source header) as [value|e] eqn:Hget.
  - apply get_Normal in Hget as [Hname _]. rewrite Hname in Hnames.
    cbn [andb] in Hnames.
    change (mbind ?f (Normal ?x)) with (f x). cbv beta.
    destruct (truthy value).
    + destruct (Hdr.set h header _) as [h1|e] eqn:Hset.
      * change (mbind ?f (Normal ?x)) with (f x). cbv beta. by apply IH.
      * by rewrite (set_Throw _ _ _ _ Hset).
    + change (mbind ?f (Normal ?x)) with (f x). cbv beta. by apply IH.
  - by rewrite (get_Throw _ _ _ Hget).
Qed.

(** X2.  With a valid [TARGET_URL], an allow-list that holds one entry
    that is no header name (an empty entry left by a trailing or
    doubled comma is enough) makes the handler throw a [TypeError] on
    every request, before any upstream call. *)
Theorem invalid_allowed_name_fails `{Runtime} (env : gmap string string)
    (target : string) (targetBaseUrl : URL) :
  TARGET_URL env = Some target →
  target ≠ "" →
  URL_new target = Some targetBaseUrl →
  forallb Hdr.is_header_name (getAllowedRequestHeaders env) = false →
  ∀ request context, handler env request context = Done (Throw TypeError).
Proof.
  intros Ht Hnz Htb Hnames request context. unfold handler.
  rewrite Ht. cbn [truthy default from_option id].
  apply eqb_false in Hnz. rewrite Hnz. cbn [negb]. rewrite Htb.
  destruct (URL_new (req_url request)) as [url|]; [|done].
  destruct (URL_new_base _ targetBaseUrl) as [targetUrl|]; [|done].
  unfold request_headers. by rewrite (copy_named_invalid _ _ _ Hnames).
Qed.

Lemma invalid_allowed_name_fails_witness :
  TARGET_URL More.env_trailing_comma = Some Sample.target ∧
  Sample.target ≠ "" ∧
  URL_new (Runtime := reference) Sample.target = Some Sample.targetBaseUrl ∧
  getAllowedRequestHeaders More.env_trailing_comma = ["accept"; "authorization"; ""] ∧
  ∀ request context,
    handler (H := reference) More.env_trailing_comma request context
    = Done (Throw TypeError).
Proof.
  split; [reflexivity|]. split; [discriminate|]. split; [reflexivity|].
  split; [reflexivity|].
  apply (invalid_allowed_name_fails (H := reference) More.env_trailing_comma
           Sample.target Sample.targetBaseUrl);
    [reflexivity|discriminate|reflexivity|reflexivity].
Defined.

(** ** Reaching the upstream *)

(** X3.  With a target and a request URL that parse, an allow-list of
    header names, a well-formed request [Headers] object and forwarding
    values that are legal header values, the handler calls [fetch]: at
    the resolved URL, with the request's own method and body, and with
    redirects left to the caller ([redirect: "manual"]). *)
Theorem handler_calls_upstream `{Runtime} (env : gmap string string)
    (request : Request) (context : Context) (target : string)
    (targetBaseUrl url targetUrl : URL) :
  TARGET_URL env = Some target →
  target ≠ "" →
  URL_new target = Some targetBaseUrl →
  URL_new (req_url request) = Some url →
  URL_new_base (URL_pathname url +:+ URL_search url) targetBaseUrl = Some targetUrl →
  forallb Hdr.is_header_name (getAllowedRequestHeaders env) = true →
  Hdr.wf (req_headers request) →
  Hdr.is_header_value (Hdr.normalize (ctx_ip context)) = true →
  Hdr.is_header_value (Hdr.normalize (Str.replace ":" "" (URL_protocol url))) = true →
  Hdr.is_header_value (Hdr.normalize (URL_host url)) = true →
  Hdr.is_header_value (Hdr.normalize (URL_host targetBaseUrl)) = true →
  ∃ headers,
    handler env request context =
      Await_fetch {| fetch_url := URL_href targetUrl;
                     fetch_method := req_method request;
                     fetch_headers := headers;
                     fetch_body := req_body request;
                     fetch_redirect := "manual" |}
                  (after_fetch env target url targetBaseUrl).
Proof.
  intros Ht Hnz Htb Hurl Htu Hnames Hwf Hip Hproto Hhost Hthost. unfold handler.
  rewrite Ht. cbn [truthy default from_option id].
  apply eqb_false in Hnz. rewrite Hnz. cbn [negb]. rewrite Htb, Hurl, Htu.
  unfold request_headers.
  destruct (copy_named_total (req_headers request) (getAllowedRequestHeaders env) ∅
              Hwf Hnames) as [h1 ->].
  change (mbind ?f (Normal ?x)) with (f x). cbv beta.
  destruct (copy_x_lookup (req_headers request) h1 Hwf) as (h2 & -> & _).
  change (mbind ?f (Normal ?x)) with (f x). cbv beta.
  rewrite set_ok by done.
  change (mbind ?f (Normal ?x)) with (f x). cbv beta.
  rewrite set_ok by done.
  change (mbind ?f (Normal ?x)) with (f x). cbv beta.
  rewrite set_ok by done.
  change (mbind ?f (Normal ?x)) with (f x). cbv beta.
  rewrite set_ok by done.
  by eexists.
Qed.

Lemma handler_calls_upstream_witness :
  ∃ headers,
    handler (H := reference) Sample.env Sample.request Sample.context =
      Await_fetch {| fetch_url := "https://target.example/a/b?x=1";
                     fetch_method := "GET";
                     fetch_headers := headers;
                     fetch_body := None;
                     fetch_redirect := "manual" |}
                  (after_fetch (H := reference) Sample.env Sample.target Sample.url
                     Sample.targetBaseUrl).
Proof.
  apply (handler_calls_upstream (H := reference) Sample.env Sample.request
           Sample.context Sample.target Sample.targetBaseUrl Sample.url
           {| Ref.scheme := "https"; Ref.host := "target.example"; Ref.port := None;
              Ref.path := ["a"; "b"]; Ref.query := Some "x=1"; Ref.fragment := None |});
    first [reflexivity | discriminate | exact SampleRun.request_wf].
Defined.

(** ** Redirects, continued *)

(** The redirect step returns the headers it was given, or those
    headers with [Location] set anew. *)
Lemma handle_redirect_result `{Runtime} (response : Response)
    (url targetBaseUrl : URL) (h h' : Headers) :
  handle_redirect response url targetBaseUrl h = Normal h' →
  h' = h ∨ ∃ v, h' = <["location" := v]> h.
Proof.
  unfold handle_redirect. intros Hrun.
  assert (∀ v h1, Hdr.set h "Location" v = Normal h1 →
                  h1 = h ∨ ∃ v, h1 = <["location" := v]> h) as Hset.
  { intros v h1 Hv. apply set_Normal in Hv as (_ & _ & ->). right. by eexists. }
  destruct (_ && _); [|left; by simplify_eq].
  change (Hdr.get (resp_headers response) "location")
    with (Normal (resp_headers response !! "location")) in Hrun.
  change (mbind ?f (Normal ?x)) with (f x) in Hrun. cbv beta in Hrun.
  destruct (truthy _); [|left; by simplify_eq].
  destruct (URL_new _) as [locUrl|]; [|exact (Hset _ _ Hrun)].
  destruct (String.eqb _ _).
  - destruct (Hdr.set h "Location" (URL_origin url +:+ _)) as [h1|] eqn:Hnew.
    + injection Hrun as <-. exact (Hset _ _ Hnew).
    + exact (Hset _ _ Hrun).
  - destruct (Hdr.set h "Location" (default "" _)) as [h1|] eqn:Hsame.
    + injection Hrun as <-. exact (Hset _ _ Hsame).
    + discriminate Hrun.
Qed.

(** X4.  The redirect step changes no header but [Location], whatever
    the upstream response is. *)
Theorem redirect_touches_location_only `{Runtime} (response : Response)
    (url targetBaseUrl : URL) (h h' : Headers) :
  handle_redirect response url targetBaseUrl h = Normal h' →
  ∀ n, n ≠ "location" → h' !! n = h !! n.
Proof.
  intros Hrun n Hn.
  destruct (handle_redirect_result _ _ _ _ _ Hrun) as [-> | [v ->]].
  - reflexivity.
  - by rewrite lookup_insert_ne.
Qed.

Lemma redirect_touches_location_only_witness :
  handle_redirect (H := reference) Sample.redirect Sample.url Sample.targetBaseUrl
    Sample.built
  = Normal (<["location" := "https://proxy.example/foo?bar"]> Sample.built) ∧
  ∀ n, n ≠ "location" →
       (<["location" := "https://proxy.example/foo?bar"]> Sample.built) !! n
       = Sample.built !! n.
Proof.
  split; [reflexivity|].
  apply (redirect_touches_location_only (H := reference) Sample.redirect Sample.url
           Sample.targetBaseUrl Sample.built).
  reflexivity.
Defined.

(** X5.  Outside the statuses 300 to 399, and for a response without a
    non-empty [Location], the redirect step does nothing at all: a
    [201 Created] keeps a [Location] that names the target. *)
Theorem redirect_only_for_3xx `{Runtime} (response : Response)
    (url targetBaseUrl : URL) (h : Headers) :
  ¬ (300 ≤ resp_status response < 400)
  ∨ nonempty (resp_headers response !! "location") = None →
  handle_redirect response url targetBaseUrl h = Normal h.
Proof.
  intros Hskip. unfold handle_redirect.
  destruct ((300 <=? resp_status response) && (resp_status response <? 400)) eqn:E;
    [|done].
  apply andb_true_iff in E as [?%Z.leb_le ?%Z.ltb_lt].
  destruct Hskip as [Hstatus|Hloc]; [lia|].
  change (Hdr.get (resp_headers response) "location")
    with (Normal (resp_headers response !! "location")).
  change (mbind ?f (Normal ?x)) with (f x). cbv beta.
  destruct (truthy (resp_headers response !! "location")) eqn:Ht; [|done].
  rewrite (truthy_nonempty _ Ht) in Hloc.
  rewrite Hloc in Ht. discriminate Ht.
Qed.

Lemma redirect_only_for_3xx_witness :
  resp_status More.created = 201 ∧
  resp_headers More.created !! "location" = Some "https://target.example/items/7" ∧
  ∀ h, handle_redirect (H := reference) More.created Sample.url Sample.targetBaseUrl h
       = Normal h.
Proof.
  split; [reflexivity|]. split; [reflexivity|]. intros h.
  apply (redirect_only_for_3xx (H := reference) More.created Sample.url
           Sample.targetBaseUrl h).
  left. cbn. lia.
Defined.

(** ** Custom response headers, continued *)

Lemma custom_invalid entries h :
  forallb legal_entry entries = false →
  for_of entries (λ h kv, Hdr.set h kv.1 (ToString kv.2)) h = Throw TypeError.
Proof.
  revert h. induction entries as [|[k v] entries IH]; intros h Hlegal;
    [discriminate Hlegal|].
  cbn [forallb] in Hlegal. cbn [for_of fst snd].
  destruct (Hdr.set h k (ToString v)) as [h1|e] eqn:Hset.
  - apply set_Normal in Hset as (Hname & Hval & _).
    unfold legal_entry in Hlegal at 1. cbn [fst snd] in Hlegal.
    rewrite Hname, Hval in Hlegal. cbn [andb] in Hlegal.
    change (mbind ?f (Normal ?x)) with (f x). cbv beta. by apply IH.
  - by rewrite (set_Throw _ _ _ _ Hset).
Qed.

(** X6.  When [CUSTOM_HEADERS] is unset or empty the handler parses the
    text of the empty object; the response headers are then always
    built, and hold exactly the passed-through upstream headers and,
    where a name is still free, the CORS defaults. *)
Theorem without_custom_headers `{Runtime} (env : gmap string string)
    (response : Response) :
  env !! "CUSTOM_HEADERS" = None ∨ env !! "CUSTOM_HEADERS" = Some "" →
  JSON_parse "{}" = Some (JObject []) →
  Hdr.wf (resp_headers response) →
  ∃ final,
    response_headers env response = Normal final ∧
    ∀ n, final !! n = match passthrough (resp_headers response) n with
                      | Some v => Some v
                      | None => cors_default n
                      end.
Proof.
  intros Henv Hparse Hwf.
  assert (parseCustomHeaders env = JObject []) as Hcustom.
  { unfold parseCustomHeaders, CUSTOM_HEADERS.
    destruct Henv as [-> | ->]; cbn [or_else String.eqb]; by rewrite Hparse. }
  assert (Object_entries (parseCustomHeaders env) = Normal []) as Hentries
    by by rewrite Hcustom.
  destruct (response_headers_total env response [] Hwf Hentries eq_refl)
    as [final Hfinal].
  exists final. split; [done|]. intros n.
  destruct (response_headers_lookup env response final Hwf Hfinal)
    as (entries & Hentries' & Hlookup).
  assert (entries = []) as -> by congruence.
  by rewrite Hlookup.
Qed.

Lemma without_custom_headers_witness :
  ∃ final,
    response_headers (H := reference) Sample.env Sample.redirect = Normal final ∧
    ∀ n, final !! n = match passthrough (resp_headers Sample.redirect) n with
                      | Some v => Some v
                      | None => cors_default n
                      end.
Proof.
  apply (without_custom_headers (H := reference) Sample.env Sample.redirect).
  - left. reflexivity.
  - reflexivity.
  - exact SampleRun.redirect_wf.
Defined.

(** X7.  A custom header that [Headers.set] refuses, because its name
    is no header name or its value holds a line break or a NUL, makes
    the handler throw a [TypeError] after every fulfilled [fetch]: no
    upstream response is passed on. *)
Theorem illegal_custom_header_fails `{Runtime} (env : gmap string string)
    (entries : list (string * JSValue)) :
  Object_entries (parseCustomHeaders env) = Normal entries →
  forallb legal_entry entries = false →
  ∀ target url targetBaseUrl response,
    Hdr.wf (resp_headers response) →
    after_fetch env target url targetBaseUrl (Fulfilled response) = Throw TypeError.
Proof.
  intros Hentries Hlegal target url targetBaseUrl response Hwf.
  unfold after_fetch, response_headers.
  destruct (copy_named_total (resp_headers response) DEFAULT_RESPONSE_HEADERS ∅ Hwf)
    as [h1 ->]; [reflexivity|].
  change (mbind ?f (Normal ?x)) with (f x). cbv beta.
  destruct (copy_x_lookup (resp_headers response) h1 Hwf) as (h2 & -> & _).
  change (mbind ?f (Normal ?x)) with (f x). cbv beta.
  rewrite Hentries.
  change (mbind ?f (Normal ?x)) with (f x). cbv beta.
  by rewrite (custom_invalid entries h2 Hlegal).
Qed.

Lemma illegal_custom_header_fails_witness :
  Object_entries (parseCustomHeaders (H := reference) More.env_bad_custom)
  = Normal [("X-Frame-Options", JString "DENY"); ("Bad Name", JString "x")] ∧
  ∀ target url targetBaseUrl,
    after_fetch (H := reference) More.env_bad_custom target url targetBaseUrl
      (Fulfilled Sample.redirect) = Throw TypeError.
Proof.
  split; [reflexivity|]. intros target url targetBaseUrl.
  apply (illegal_custom_header_fails (H := reference) More.env_bad_custom
           [("X-Frame-Options", JString "DENY"); ("Bad Name", JString "x")]);
    [reflexivity|reflexivity|exact SampleRun.redirect_wf].
Defined.

(** ** CORS headers on every proxied response *)

Lemma set_default_present h name value h' :
  set_default h name value = Normal h' →
  is_Some (h' !! Str.byte_lowercase name) ∧ ∀ n, is_Some (h !! n) → is_Some (h' !! n).
Proof.
  intros Hrun. split.
  - rewrite (set_default_lookup _ _ _ _ _ Hrun). rewrite decide_True by done.
    by destruct (h !! _).
  - intros n Hn. rewrite (set_default_lookup _ _ _ _ _ Hrun).
    case_decide; [|done]. by destruct (h !! n).
Qed.

(** X8.  Every response the handler passes on from the upstream carries
    the three CORS headers, whatever the upstream or the custom headers
    held. *)
Theorem cors_headers_always_present `{Runtime} (env : gmap string string)
    (target : string) (url targetBaseUrl : URL) (response r : Response) :
  after_fetch env target url targetBaseUrl (Fulfilled response) = Normal r →
  is_Some (resp_headers r !! "access-control-allow-origin") ∧
  is_Some (resp_headers r !! "access-control-allow-methods") ∧
  is_Some (resp_headers r !! "access-control-allow-headers").
Proof.
  intros Hrun.
  destruct (after_fetch_inv _ _ _ _ _ _ Hrun) as (h & h' & Hh & Hh' & Hnew).
  apply Resp_new_inv in Hnew as (_ & _ & _ & Hfill).
  assert (resp_headers r = h') as ->.
  { destruct (resp_body response); cbn in Hfill; congruence. }
  unfold response_headers in Hh.
  bind_inv Hh h1 Hh1. bind_inv Hh h2 Hh2. bind_inv Hh entries Hentries.
  bind_inv Hh h3 Hh3. bind_inv Hh h4 Hh4. bind_inv Hh h5 Hh5.
  destruct (set_default_present _ _ _ _ Hh4) as [Horigin _].
  destruct (set_default_present _ _ _ _ Hh5) as [Hmethods Hkeep5].
  destruct (set_default_present _ _ _ _ Hh) as [Hheaders Hkeep].
  assert (∀ n, n ≠ "location" → h' !! n = h !! n) as Hframe.
  { intros n Hn. destruct (handle_redirect_result _ _ _ _ _ Hh') as [-> | [v ->]];
      [done|by rewrite lookup_insert_ne]. }
  rewrite !Hframe by discriminate.
  split; [|split].
  - apply Hkeep, Hkeep5, Horigin.
  - apply Hkeep, Hmethods.
  - apply Hheaders.
Qed.

Lemma cors_headers_always_present_witness :
  after_fetch (H := reference) Sample.env Sample.target Sample.url
    Sample.targetBaseUrl (Fulfilled Sample.redirect) = Normal Sample.client_response ∧
  is_Some (resp_headers Sample.client_response !! "access-control-allow-origin") ∧
  is_Some (resp_headers Sample.client_response !! "access-control-allow-methods") ∧
  is_Some (resp_headers Sample.client_response !! "access-control-allow-headers").
Proof.
  split; [exact SampleRun.redirect_answer|].
  apply (cors_headers_always_present (H := reference) Sample.env Sample.target
           Sample.url Sample.targetBaseUrl Sample.redirect Sample.client_response
           SampleRun.redirect_answer).
Defined.

(** ** Well-formed headers *)

Lemma wf_iff (h : Headers) :
  Hdr.wf h ↔ ∀ k v, h !! k = Some v → Hdr.wf_entry (k, v) = true.
Proof.
  unfold Hdr.wf. rewrite forallb_forall. split.
  - intros Hall k v Hk. apply Hall. by apply list_elem_of_In, elem_of_map_to_list.
  - intros Hall [k v] Hin. apply Hall. by apply elem_of_map_to_list, list_elem_of_In.
Qed.

Lemma byte_lower_char_idem c :
  Str.byte_lower_char (Str.byte_lower_char c) = Str.byte_lower_char c.
Proof. by destruct c as [[] [] [] [] [] [] [] []]. Qed.

Lemma byte_lowercase_idem s :
  Str.byte_lowercase (Str.byte_lowercase s) = Str.byte_lowercase s.
Proof. induction s as [|c s IH]; cbn; [done|]. by rewrite byte_lower_char_idem, IH. Qed.

Lemma token_byte_lower_char c :
  Hdr.is_token_char (Str.byte_lower_char c) = Hdr.is_token_char c.
Proof. by destruct c as [[] [] [] [] [] [] [] []]. Qed.

Lemma header_name_byte_lowercase s :
  Hdr.is_header_name (Str.byte_lowercase s) = Hdr.is_header_name s.
Proof.
  unfold Hdr.is_header_name. f_equal.
  - by destruct s.
  - induction s as [|c s IH]; [done|]. cbn [Str.byte_lowercase Str.forallb].
    by rewrite token_byte_lower_char, IH.
Qed.

(** What [set] stores is a well-formed entry. *)
Lemma set_entry_wf name value :
  Hdr.is_header_name name = true →
  Hdr.is_header_value (Hdr.normalize value) = true →
  Hdr.wf_entry (Str.byte_lowercase name, Hdr.normalize value) = true.
Proof.
  intros Hname Hval. unfold Hdr.wf_entry, Hdr.clean. cbn [fst snd].
  rewrite header_name_byte_lowercase, Hname, byte_lowercase_idem, Hval.
  unfold Hdr.normalize at 1. rewrite strip_idem.
  by rewrite !String.eqb_refl.
Qed.

Lemma set_wf h name value h' :
  Hdr.wf h → Hdr.set h name value = Normal h' → Hdr.wf h'.
Proof.
  rewrite !wf_iff. intros Hwf Hset k v.
  apply set_Normal in Hset as (Hname & Hval & ->).
  destruct (decide (k = Str.byte_lowercase name)) as [->|Hne].
  - rewrite lookup_insert_eq. intros [= <-]. by apply set_entry_wf.
  - rewrite lookup_insert_ne by done. apply Hwf.
Qed.

(** A loop keeps what each of its steps keeps. *)
Lemma for_of_invariant {A S} (P : S → Prop) (l : list A)
    (body : S → A → Completion S) (s s' : S) :
  (∀ s x s', P s → body s x = Normal s' → P s') →
  P s → for_of l body s = Normal s' → P s'.
Proof.
  intros Hstep. revert s. induction l as [|x l IH]; intros s Hs Hrun.
  - cbn in Hrun. by simplify_eq.
  - cbn [for_of] in Hrun. bind_inv Hrun s1 Hs1. eauto.
Qed.

Section WellFormed.

Context `{Runtime}.
Variable env : gmap string string.

Lemma copy_named_wf source names h h' :
  Hdr.wf h → copy_named source names h = Normal h' → Hdr.wf h'.
Proof.
  unfold copy_named. apply for_of_invariant. clear. intros h header h1 Hwf Hstep.
  bind_inv Hstep value Hget.
  destruct (truthy value); [by eapply set_wf|by simplify_eq].
Qed.

Lemma copy_x_wf source h h' :
  Hdr.wf h → copy_x source h = Normal h' → Hdr.wf h'.
Proof.
  unfold copy_x. apply for_of_invariant. clear. intros h kv h1 Hwf Hstep.
  unfold x_callback in Hstep.
  destruct (Str.startsWith _ _); [|by simplify_eq].
  bind_inv Hstep present Hhas.
  destruct (negb present); [by eapply set_wf|by simplify_eq].
Qed.

Lemma set_default_wf h name value h' :
  Hdr.wf h → set_default h name value = Normal h' → Hdr.wf h'.
Proof.
  unfold set_default. intros Hwf Hrun. bind_inv Hrun present Hhas.
  destruct (negb present); [by eapply set_wf|by simplify_eq].
Qed.

Lemma request_headers_wf request context url targetBaseUrl headers :
  request_headers env request context url targetBaseUrl = Normal headers →
  Hdr.wf headers.
Proof.
  unfold request_headers. intros Hrun.
  bind_inv Hrun h1 Hh1. bind_inv Hrun h2 Hh2.
  bind_inv Hrun h3 Hh3. bind_inv Hrun h4 Hh4. bind_inv Hrun h5 Hh5.
  assert (Hdr.wf (∅ : Headers)) as Hempty by reflexivity.
  pose proof (copy_named_wf _ _ _ _ Hempty Hh1) as Hwf1.
  pose proof (copy_x_wf _ _ _ Hwf1 Hh2) as Hwf2.
  pose proof (set_wf _ _ _ _ Hwf2 Hh3) as Hwf3.
  pose proof (set_wf _ _ _ _ Hwf3 Hh4) as Hwf4.
  pose proof (set_wf _ _ _ _ Hwf4 Hh5) as Hwf5.
  exact (set_wf _ _ _ _ Hwf5 Hrun).
Qed.

Lemma response_headers_wf response h :
  response_headers env response = Normal h → Hdr.wf h.
Proof.
  unfold response_headers. intros Hrun.
  bind_inv Hrun h1 Hh1. bind_inv Hrun h2 Hh2. bind_inv Hrun entries Hentries.
  bind_inv Hrun h3 Hh3. bind_inv Hrun h4 Hh4. bind_inv Hrun h5 Hh5.
  assert (Hdr.wf (∅ : Headers)) as Hempty by reflexivity.
  pose proof (copy_named_wf _ _ _ _ Hempty Hh1) as Hwf1.
  pose proof (copy_x_wf _ _ _ Hwf1 Hh2) as Hwf2.
  assert (Hdr.wf h3) as Hwf3.
  { refine (for_of_invariant Hdr.wf _ _ _ _ _ Hwf2 Hh3).
    intros s kv s1 Hs Hset. exact (set_wf _ _ _ _ Hs Hset). }
  pose proof (set_default_wf _ _ _ _ Hwf3 Hh4) as Hwf4.
  pose proof (set_default_wf _ _ _ _ Hwf4 Hh5) as Hwf5.
  exact (set_default_wf _ _ _ _ Hwf5 Hrun).
Qed.

Lemma handle_redirect_wf response url targetBaseUrl h h' :
  Hdr.wf h → handle_redirect response url targetBaseUrl h = Normal h' → Hdr.wf h'.
Proof.
  unfold handle_redirect. intros Hwf Hrun.
  destruct (_ && _); [|by simplify_eq].
  bind_inv Hrun location Hloc.
  destruct (truthy location); [|by simplify_eq].
  destruct (URL_new _) as [locUrl|]; [|by eapply set_wf].
  destruct (String.eqb _ _).
  - destruct (Hdr.set h "Location" (URL_origin url +:+ _)) as [h1|] eqn:Hnew.
    + injection Hrun as <-. by eapply set_wf.
    + by eapply set_wf.
  - destruct (Hdr.set h "Location" (default "" _)) as [h1|] eqn:Hsame.
    + injection Hrun as <-. by eapply set_wf.
    + discriminate Hrun.
Qed.

End WellFormed.

(** X9.  The handler only ever emits well-formed headers, whatever the
    request and the upstream sent: the headers of the [fetch] call and
    those of every response it returns hold lower-case token names and
    values without surrounding white space, line breaks or NUL.  (So
    the handler's output meets what the other results assume of a
    [Headers] object.) *)
Theorem emitted_headers_well_formed `{Runtime} (env : gmap string string)
    (request : Request) (context : Context) call k :
  handler env request context = Await_fetch call k →
  Hdr.wf (fetch_headers call) ∧
  ∀ outcome r, k outcome = Normal r → Hdr.wf (resp_headers r).
Proof.
  intros Hrun.
  destruct (handler_fetch_inv _ _ _ _ _ Hrun)
    as (target & tb & url & tu & headers & _ & _ & _ & _ & Hh & -> & ->).
  split; [by eapply request_headers_wf|].
  intros [response|error] r Hr.
  - destruct (after_fetch_inv _ _ _ _ _ _ Hr) as (h & h' & Hbuilt & Hh' & Hnew).
    apply Resp_new_inv in Hnew as (_ & _ & _ & Hfill).
    assert (resp_headers r = h') as ->.
    { destruct (resp_body response); cbn in Hfill; congruence. }
    eapply handle_redirect_wf; [|exact Hh']. by eapply response_headers_wf.
  - cbn [after_fetch] in Hr. rewrite json_response_Normal in Hr by reflexivity.
    injection Hr as <-. reflexivity.
Qed.

Lemma emitted_headers_well_formed_witness :
  handler (H := reference) Sample.env Sample.request Sample.context
  = Await_fetch Sample.call
      (after_fetch (H := reference) Sample.env Sample.target Sample.url Sample.targetBaseUrl) ∧
  Hdr.wf (fetch_headers Sample.call) ∧
  ∀ outcome r,
    after_fetch (H := reference) Sample.env Sample.target Sample.url
      Sample.targetBaseUrl outcome = Normal r →
    Hdr.wf (resp_headers r).
Proof.
  split; [reflexivity|].
  apply (emitted_headers_well_formed (H := reference) Sample.env Sample.request
           Sample.context Sample.call _ SampleRun.handler_awaits).
Defined.

(** ** The sibling function proxy.js *)

Section Sibling.

Context `{Runtime}.
Variable globals : gmap string string.
Variable message_of : Exception → string.




End Sibling.





(** The request came over plain http and names an address of its own:
    the upstream is told https and that address; the cookie goes
    along. *)
Example sibling_sample_call :
  ∃ call k,
    handler_js (H := reference) More.globals More.message_of More.plain_request
    = Js_await call k ∧
    fetch_url call = "https://media.example/jf/a/b?x=1" ∧
    fetch_headers call !! "cookie" = Some "c=1" ∧
    fetch_headers call !! "x-forwarded-proto" = Some "https" ∧
    fetch_headers call !! "x-forwarded-for" = Some "6.6.6.6" ∧
    fetch_headers call !! "host" = Some "media.example".
Proof. eexists _, _. repeat split; reflexivity. Qed.

Section SiblingResponse.

Context `{Runtime}.
Variable message_of : Exception → string.



End SiblingResponse.





(** ** An upstream status no [Response] can carry *)

(** X14.  When the upstream answers with a status outside 200 to 599
    and the response headers have been built, [new Response] throws a
    [RangeError]: the handler of proxy.ts passes no response on (where
    proxy.js answers 502). *)
Theorem upstream_status_out_of_range `{Runtime} (env : gmap string string)
    (target : string) (url targetBaseUrl : URL) (response : Response) :
  Hdr.wf (resp_headers response) →
  (∃ h, response_headers env response = Normal h) →
  ¬ (200 ≤ resp_status response ≤ 599) →
  after_fetch env target url targetBaseUrl (Fulfilled response) = Throw RangeError.
Proof.
  intros Hwf [h Hh] Hstatus. unfold after_fetch. rewrite Hh.
  change (mbind ?f (Normal ?x)) with (f x). cbv beta.
  destruct (handle_redirect_total response url targetBaseUrl h Hwf) as [h' ->].
  change (mbind ?f (Normal ?x)) with (f x). cbv beta.
  unfold Resp.new. cbn [init_status].
  destruct ((200 <=? resp_status response) && (resp_status response <=? 599)) eqn:E;
    [|done].
  apply andb_true_iff in E as [?%Z.leb_le ?%Z.leb_le]. lia.
Qed.

Lemma upstream_status_out_of_range_witness :
  resp_status More.beyond = 999 ∧
  after_fetch (H := reference) Sample.env Sample.target Sample.url
    Sample.targetBaseUrl (Fulfilled More.beyond) = Throw RangeError.
Proof.
  split; [reflexivity|].
  apply (upstream_status_out_of_range (H := reference) Sample.env Sample.target
           Sample.url Sample.targetBaseUrl More.beyond).
  - reflexivity.
  - eexists. reflexivity.
  - cbn. lia.
Defined.
